(** * PageRank estimators of [pagerank.py]

    A shallow embedding of [transition_model], [sample_pagerank] and
    [iterate_pagerank].  Python dictionaries are association lists in
    insertion order, Python sets are duplicate-free lists, numbers are
    rationals (exact arithmetic stands for the floats of the program), and
    exceptions are the [Err] results of a small error monad. *)

From Stdlib Require Import List String ZArith QArith Qabs Qminmax Lia Bool.
Import ListNotations.
Local Open Scope string_scope.
Local Open Scope list_scope.
Local Open Scope Q_scope.

(** ** Exceptions and the error monad *)

Inductive exn : Type :=
| KeyError
| IndexError
| ValueError
| ZeroDivisionError.

Inductive result (A : Type) : Type :=
| Ok (a : A)
| Err (e : exn).
Arguments Ok {A} a.
Arguments Err {A} e.

Definition bind {A B : Type} (m : result A) (k : A -> result B) : result B :=
  match m with
  | Ok a => k a
  | Err e => Err e
  end.

Notation "x <- m ;; k" := (bind m (fun x => k))
  (at level 61, m at next level, right associativity).
Notation "' p <- m ;; k" := (bind m (fun x => match x with p => k end))
  (at level 61, p pattern, m at next level, right associativity).

(** [for x in xs: body], threading the variables the body assigns. *)
Fixpoint for_each {A S : Type} (xs : list A) (body : A -> S -> result S)
  (s : S) : result S :=
  match xs with
  | [] => Ok s
  | x :: xs' => s' <- body x s ;; for_each xs' body s'
  end.

(** ** Dictionaries and sets *)

Definition dict (V : Type) : Type := list (string * V).

Definition keys {V : Type} (d : dict V) : list string := map fst d.
Definition values {V : Type} (d : dict V) : list V := map snd d.

(** [d[k]] *)
Fixpoint dict_get {V : Type} (d : dict V) (k : string) : result V :=
  match d with
  | [] => Err KeyError
  | (k', v) :: d' => if String.eqb k k' then Ok v else dict_get d' k
  end.

(** [d[k] = v]: an existing key keeps its position, a new key goes last. *)
Fixpoint dict_set {V : Type} (d : dict V) (k : string) (v : V) : dict V :=
  match d with
  | [] => [(k, v)]
  | (k', v') :: d' =>
      if String.eqb k k' then (k', v) :: d' else (k', v') :: dict_set d' k v
  end.

(** [k in s] for a set of page names. *)
Definition set_mem (k : string) (s : list string) : bool :=
  existsb (String.eqb k) s.

(** Truth value of a container: non-empty. *)
Definition truthy {A : Type} (l : list A) : bool :=
  match l with
  | [] => false
  | _ :: _ => true
  end.

Definition len {A : Type} (l : list A) : Q := inject_Z (Z.of_nat (List.length l)).

(** [x / y] *)
Definition py_div (x y : Q) : result Q :=
  if Qeq_bool y 0 then Err ZeroDivisionError else Ok (x / y).

Definition corpus_t : Type := dict (list string).
Definition table : Type := dict Q.

(** ** transition_model *)

Definition transition_model (corpus : corpus_t) (page : string)
  (damping_factor : Q) : result table :=
  let distribution : table := [] in
  links <- dict_get corpus page ;;
  if truthy links then
    for_each (keys corpus)
      (fun link distribution =>
         base <- py_div (1 - damping_factor) (len corpus) ;;
         let distribution := dict_set distribution link base in
         links <- dict_get corpus page ;;
         if set_mem link links then
           old <- dict_get distribution link ;;
           links <- dict_get corpus page ;;
           extra <- py_div damping_factor (len links) ;;
           Ok (dict_set distribution link (old + extra))
         else Ok distribution)
      distribution
  else
    for_each (keys corpus)
      (fun link distribution =>
         v <- py_div 1 (len corpus) ;;
         Ok (dict_set distribution link v))
      distribution.

(** ** The random source

    [random.choice] and [random.choices] are the only uses of randomness.
    A realization of the draws is given by the index that [random.choice]
    picks in a sequence of a given length and by the uniform variate that
    [random.choices] draws at each step of the walk. *)

Record random_source : Type := {
  rs_index : nat -> nat;
  rs_unit : Z -> Q
}.

(** [random.choice(seq)] *)
Definition random_choice (rs : random_source) (seq : list string)
  : result string :=
  match seq with
  | [] => Err IndexError
  | _ :: _ =>
      match nth_error seq (rs_index rs (List.length seq) mod List.length seq) with
      | Some x => Ok x
      | None => Err IndexError
      end
  end.

(** [itertools.accumulate] *)
Fixpoint accumulate_from (acc : Q) (w : list Q) : list Q :=
  match w with
  | [] => []
  | x :: w' => (acc + x) :: accumulate_from (acc + x) w'
  end.

Definition accumulate (w : list Q) : list Q :=
  match w with
  | [] => []
  | x :: w' => x :: accumulate_from x w'
  end.

Definition Qlt_bool (x y : Q) : bool := negb (Qle_bool y x).

(** [bisect.bisect_right(a, x, lo, hi)]; [fuel] bounds the halvings. *)
Fixpoint bisect_right (fuel : nat) (a : list Q) (x : Q) (lo hi : nat) : nat :=
  match fuel with
  | O => lo
  | S fuel' =>
      if (lo <? hi)%nat then
        let mid := ((lo + hi) / 2)%nat in
        if Qlt_bool x (nth mid a 0) then bisect_right fuel' a x lo mid
        else bisect_right fuel' a x (mid + 1) hi
      else lo
  end.

(** [random.choices(population, weights, k=1)[0]] with variate [u]. *)
Definition random_choices (u : Q) (population : list string)
  (weights : list Q) : result string :=
  let n := List.length population in
  let cum_weights := accumulate weights in
  if negb (List.length cum_weights =? n)%nat then Err ValueError
  else
    match rev cum_weights with
    | [] => Err IndexError
    | total :: _ =>
        if Qle_bool total 0 then Err ValueError
        else
          let hi := (n - 1)%nat in
          match nth_error population
                  (bisect_right (S hi) cum_weights (u * total) 0 hi) with
          | Some x => Ok x
          | None => Err IndexError
          end
    end.

(** ** sample_pagerank *)

(** [range(a, b)] *)
Fixpoint range_from (a : Z) (count : nat) : list Z :=
  match count with
  | O => []
  | S count' => a :: range_from (a + 1) count'
  end.

Definition py_range (a b : Z) : list Z := range_from a (Z.to_nat (b - a)).

(** One turn of the loop [for i in range(1, n)]; the loop variables are the
    table [pagerank] and the current [page]. *)
Definition sample_step (corpus : corpus_t) (damping_factor : Q)
  (rs : random_source) (i : Z) (st : table * string)
  : result (table * string) :=
  let '(pagerank, page) := st in
  cur_pagerank <- transition_model corpus page damping_factor ;;
  pagerank <-
    for_each (keys pagerank)
      (fun page pagerank =>
         old <- dict_get pagerank page ;;
         cur <- dict_get cur_pagerank page ;;
         v <- py_div (inject_Z (i - 1) * old + cur) (inject_Z i) ;;
         Ok (dict_set pagerank page v))
      pagerank ;;
  page <- random_choices (rs_unit rs i) (keys pagerank) (values pagerank) ;;
  Ok (pagerank, page).

Definition sample_pagerank (corpus : corpus_t) (damping_factor : Q) (n : Z)
  (rs : random_source) : result table :=
  pagerank <-
    for_each (keys corpus) (fun page pagerank => Ok (dict_set pagerank page 0))
      [] ;;
  page <- random_choice rs (keys corpus) ;;
  st <- for_each (py_range 1 n) (sample_step corpus damping_factor rs)
          (pagerank, page) ;;
  Ok (fst st).

(** ** iterate_pagerank *)

(** [math.isclose(a, b, abs_tol=abs_tol)], with the default relative
    tolerance [1e-09]. *)
Definition rel_tol : Q := 1 # 1000000000.

Definition isclose (a b abs_tol : Q) : bool :=
  if Qeq_bool a b then true
  else
    let diff := Qabs (b - a) in
    Qle_bool diff (Qabs (rel_tol * b))
    || Qle_bool diff (Qabs (rel_tol * a))
    || Qle_bool diff abs_tol.

(** The inner loop [for newpage in corpus] that accumulates [sum]. *)
Definition rank_sum (corpus : corpus_t) (pagerank : table) (page : string)
  : result Q :=
  for_each (keys corpus)
    (fun newpage sum =>
       links <- dict_get corpus newpage ;;
       sum <-
         (if set_mem page links then
            r <- dict_get pagerank newpage ;;
            links <- dict_get corpus newpage ;;
            q <- py_div r (len links) ;;
            Ok (sum + q)
          else Ok sum) ;;
       links <- dict_get corpus newpage ;;
       if negb (truthy links) then
         r <- dict_get pagerank newpage ;;
         q <- py_div r (len corpus) ;;
         Ok (sum + q)
       else Ok sum)
    0.

(** The first [for page in pagerank] of the loop body: all new ranks,
    computed from the old table. *)
Definition new_ranks (corpus : corpus_t) (damping_factor : Q)
  (pagerank : table) : result table :=
  let newrank := pagerank in
  for_each (keys pagerank)
    (fun page newrank =>
       sum <- rank_sum corpus pagerank page ;;
       base <- py_div (1 - damping_factor) (len corpus) ;;
       Ok (dict_set newrank page (base + damping_factor * sum)))
    newrank.

(** The second [for page in pagerank]: the convergence test and the copy of
    the new ranks into [pagerank]. *)
Definition compare_and_store (newrank pagerank : table)
  : result (bool * table) :=
  let change := false in
  for_each (keys pagerank)
    (fun page st =>
       let '(change, pagerank) := st in
       new <- dict_get newrank page ;;
       old <- dict_get pagerank page ;;
       let change := if negb (isclose new old (1 # 1000)) then true else change in
       new <- dict_get newrank page ;;
       Ok (change, dict_set pagerank page new))
    (change, pagerank).

(** The body of [while change] up to its last statement. *)
Definition update_pass (corpus : corpus_t) (damping_factor : Q)
  (pagerank : table) : result (bool * table) :=
  newrank <- new_ranks corpus damping_factor pagerank ;;
  compare_and_store newrank pagerank.

(** What a loop body does when it ends: go back to the loop test, or
    execute [return]. *)
Inductive flow (S R : Type) : Type :=
| Next (s : S)
| Return (r : R).
Arguments Next {S R} s.
Arguments Return {S R} r.

(** What a call does: it runs out of fuel, raises, or returns a value
    ([None] when the end of the function is reached without [return]). *)
Inductive outcome (R : Type) : Type :=
| OutOfFuel
| Raises (e : exn)
| Returns (r : option R).
Arguments OutOfFuel {R}.
Arguments Raises {R} e.
Arguments Returns {R} r.

(** [while test: body], followed by the end of the function. *)
Fixpoint while_loop {S R : Type} (fuel : nat) (test : S -> bool)
  (body : S -> result (flow S R)) (s : S) : outcome R :=
  match fuel with
  | O => OutOfFuel
  | S fuel' =>
      if test s then
        match body s with
        | Ok (Next s') => while_loop fuel' test body s'
        | Ok (Return r) => Returns (Some r)
        | Err e => Raises e
        end
      else Returns None
  end.

Definition iterate_body (corpus : corpus_t) (damping_factor : Q)
  (st : bool * table) : result (flow (bool * table) table) :=
  let '(_, pagerank) := st in
  st' <- update_pass corpus damping_factor pagerank ;;
  let '(change, pagerank) := st' in
  Ok (Return pagerank).

Definition iterate_pagerank (fuel : nat) (corpus : corpus_t)
  (damping_factor : Q) : outcome table :=
  match
    for_each (keys corpus)
      (fun page pagerank =>
         v <- py_div 1 (len corpus) ;;
         Ok (dict_set pagerank page v))
      []
  with
  | Err e => Raises e
  | Ok pagerank =>
      let change := true in
      while_loop fuel fst (iterate_body corpus damping_factor)
        (change, pagerank)
  end.

(** ** Sample inputs *)

(** [{"A": {"B", "C"}, "B": {"A"}, "C": set()}] *)
Definition g3 : corpus_t :=
  [("A", ["B"; "C"]); ("B", ["A"]); ("C", [])].

(** [{"A": set(), "B": {"A"}}]: [A] has no links. *)
Definition g2 : corpus_t := [("A", []); ("B", ["A"])].

(** [{"A": set()}] *)
Definition g1 : corpus_t := [("A", [])].

(** A realization of the draws. *)
Definition rs0 : random_source :=
  {| rs_index := fun _ => 1%nat; rs_unit := fun _ => 1 # 3 |}.

(** ** Well-formed inputs

    A corpus is a Python dict of Python sets: its keys are pairwise
    distinct and so are the members of every link set.  [crawl] keeps only
    links to pages of the corpus. *)

Definition is_dict {V : Type} (d : dict V) : Prop := NoDup (keys d).

Definition is_corpus (corpus : corpus_t) : Prop :=
  is_dict corpus /\ Forall (fun kv => NoDup (snd kv)) corpus.

Definition links_closed (corpus : corpus_t) : Prop :=
  Forall (fun kv => incl (snd kv) (keys corpus)) corpus.

(** The Graph of the data model. *)
Definition is_graph (corpus : corpus_t) : Prop :=
  is_corpus corpus /\ links_closed corpus.

Fixpoint nodupb (l : list string) : bool :=
  match l with
  | [] => true
  | x :: l' => negb (set_mem x l') && nodupb l'
  end.

Definition is_corpusb (corpus : corpus_t) : bool :=
  nodupb (keys corpus) && forallb (fun kv => nodupb (snd kv)) corpus.

Definition links_closedb (corpus : corpus_t) : bool :=
  forallb (fun kv => forallb (fun l => set_mem l (keys corpus)) (snd kv))
    corpus.

Definition is_graphb (corpus : corpus_t) : bool :=
  is_corpusb corpus && links_closedb corpus.

(** Sum of the values of a table. *)
Definition sumQ (l : list Q) : Q := fold_right Qplus 0 l.

(** The value [transition_model] gives to [link] when the current page has
    the link set [links]. *)
Definition transition_value (corpus : corpus_t) (links : list string)
  (damping_factor : Q) (link : string) : Q :=
  if truthy links then
    if set_mem link links
    then (1 - damping_factor) / len corpus + damping_factor / len links
    else (1 - damping_factor) / len corpus
  else 1 / len corpus.

(** ** The sampler as the specification words it

    The table of zeros the walk starts from, the incremental mean, and a
    walk of a given number of steps: at step [i] the distribution of the
    current page is computed, every node's average becomes the incremental
    mean of its old average and its value in that distribution, and the
    next page is drawn with the new averages as weights. *)

Definition zero_table (corpus : corpus_t) : table :=
  map (fun k => (k, 0)) (keys corpus).

Definition running_average (i : Z) (old_average step_value : Q) : Q :=
  (inject_Z (i - 1) * old_average + step_value) / inject_Z i.

Inductive walk (corpus : corpus_t) (d : Q) (rs : random_source)
  : Z -> nat -> table * string -> table * string -> Prop :=
| walk_done (i : Z) (st : table * string) : walk corpus d rs i 0 st st
| walk_step (i : Z) (count : nat) (averages : table) (page : string)
    (dist averages' : table) (page' : string) (st : table * string) :
    transition_model corpus page d = Ok dist ->
    keys averages' = keys averages ->
    (forall node old, dict_get averages node = Ok old ->
       exists v, dict_get dist node = Ok v
                 /\ dict_get averages' node = Ok (running_average i old v)) ->
    random_choices (rs_unit rs i) (keys averages') (values averages')
    = Ok page' ->
    walk corpus d rs (i + 1) count (averages', page') st ->
    walk corpus d rs i (S count) (averages, page) st.

(** What the loop variables satisfy before turn [i]. *)
Definition sample_inv (corpus : corpus_t) (i : Z) (st : table * string) : Prop :=
  keys (fst st) = keys corpus
  /\ In (snd st) (keys corpus)
  /\ (i = 1%Z \/ sumQ (values (fst st)) == 1).

(** ** The update pass in closed form *)

Definition rank_of (t : table) (k : string) : Q :=
  match dict_get t k with
  | Ok v => v
  | Err _ => 0
  end.

Definition links_of (corpus : corpus_t) (k : string) : list string :=
  match dict_get corpus k with
  | Ok links => links
  | Err _ => []
  end.

(** What turn [newpage] of the inner loop does to [sum]. *)
Definition add_share (corpus : corpus_t) (pagerank : table) (page : string)
  (sum : Q) (newpage : string) : Q :=
  let sum :=
    if set_mem page (links_of corpus newpage)
    then sum + rank_of pagerank newpage / len (links_of corpus newpage)
    else sum in
  if negb (truthy (links_of corpus newpage))
  then sum + rank_of pagerank newpage / len corpus
  else sum.

Definition new_rank (corpus : corpus_t) (d : Q) (pagerank : table)
  (page : string) : Q :=
  (1 - d) / len corpus
  + d * fold_left (add_share corpus pagerank page) (keys corpus) 0.

(** The share of the rank of [newpage] that reaches [page] in one pass:
    a link from [newpage] carries an equal part of its rank, and a page
    without links gives an equal part to every page. *)
Definition share (corpus : corpus_t) (pagerank : table) (page newpage : string)
  : Q :=
  (if set_mem page (links_of corpus newpage)
   then rank_of pagerank newpage / len (links_of corpus newpage)
   else 0)
  + (if negb (truthy (links_of corpus newpage))
     then rank_of pagerank newpage / len corpus
     else 0).

(** The flag [change] at the end of a pass. *)
Definition changed (f : string -> Q) (pagerank : table) : bool :=
  existsb (fun kv => negb (isclose (f (fst kv)) (snd kv) (1 # 1000))) pagerank.

(** The start of [iterate_pagerank]: rank [1 / N] for every page. *)
Definition uniform_table (corpus : corpus_t) : table :=
  map (fun k => (k, 1 / len corpus)) (keys corpus).

(** A call raises. *)
Definition fails {A : Type} (r : result A) : Prop := exists e, r = Err e.
Definition raises {R : Type} (o : outcome R) : Prop := exists e, o = Raises e.

(** ** crawl

    The directory is given by its listing ([os.listdir]) and by the text of
    each of its files; [findall] stands for the call of [re.findall] that
    extracts the targets of the anchors of a text. *)

(** [s.endswith(suffix)] *)
Definition endswith (s suffix : string) : bool :=
  let n := String.length s in
  let m := String.length suffix in
  (m <=? n)%nat && String.eqb (substring (n - m) m s) suffix.

(** [set(l)] *)
Definition py_set (l : list string) : list string := nodup string_dec l.

(** [s - t] on sets *)
Definition set_diff (s t : list string) : list string :=
  filter (fun x => negb (set_mem x t)) s.

(** [k in d] *)
Definition dict_mem {V : Type} (d : dict V) (k : string) : bool :=
  set_mem k (keys d).

(** The first loop of [crawl]: the links of every [.html] file, without
    the file itself. *)
Definition crawl_scan (listing : list string) (read : string -> string)
  (findall : string -> list string) : result corpus_t :=
  let pages : corpus_t := [] in
  for_each listing
    (fun filename pages =>
       if negb (endswith filename ".html") then Ok pages
       else
         let contents := read filename in
         let links := findall contents in
         Ok (dict_set pages filename (set_diff (py_set links) [filename])))
    pages.

(** The second loop of [crawl]: only the links to pages of the corpus. *)
Definition crawl_filter (pages : corpus_t) : result corpus_t :=
  for_each (keys pages)
    (fun filename pages =>
       links <- dict_get pages filename ;;
       Ok (dict_set pages filename (py_set (filter (dict_mem pages) links))))
    pages.

Definition crawl (listing : list string) (read : string -> string)
  (findall : string -> list string) : result corpus_t :=
  pages <- crawl_scan listing read findall ;;
  crawl_filter pages.

(** The link set the first loop stores for a file. *)
Definition raw_links (read : string -> string)
  (findall : string -> list string) (filename : string) : list string :=
  set_diff (py_set (findall (read filename))) [filename].

(** The constants of the module. *)
Definition DAMPING : Q := 85 # 100.
Definition SAMPLES : Z := 10000.

Definition dir_links (filename : string) : list string :=
  if String.eqb filename "1.html"
  then ["2.html"; "1.html"; "2.html"; "3.html"]
  else if String.eqb filename "2.html" then ["1.html"] else [].

(** The probability [transition_model] gives to the move from [page] to
    [next]. *)
Definition transition_prob (corpus : corpus_t) (d : Q) (page next : string)
  : Q :=
  match transition_model corpus page d with
  | Ok dist => rank_of dist next
  | Err _ => 0
  end.

(** * Facts about dictionaries and loops *)

Lemma set_mem_In (k : string) (s : list string) :
  set_mem k s = true <-> In k s.
Proof.
  unfold set_mem. rewrite existsb_exists. split.
  - intros [x [Hx He]]. apply String.eqb_eq in He. now subst.
  - intros H. exists k. split; [assumption | apply String.eqb_refl].
Qed.

Lemma set_mem_not_In (k : string) (s : list string) :
  set_mem k s = false <-> ~ In k s.
Proof.
  rewrite <- set_mem_In. destruct (set_mem k s); split; congruence.
Qed.

Lemma nodupb_sound (l : list string) : nodupb l = true -> NoDup l.
Proof.
  induction l as [|x l IH]; simpl; intros H.
  - constructor.
  - apply andb_prop in H as [Hx Hl]. constructor.
    + apply set_mem_not_In. now destruct (set_mem x l).
    + now apply IH.
Qed.

Lemma is_corpusb_sound (corpus : corpus_t) :
  is_corpusb corpus = true -> is_corpus corpus.
Proof.
  unfold is_corpusb, is_corpus, is_dict. intros H.
  apply andb_prop in H as [Hk Hs]. split.
  - now apply nodupb_sound.
  - apply Forall_forall. intros kv Hin.
    rewrite forallb_forall in Hs. apply nodupb_sound. now apply Hs.
Qed.

Lemma links_closedb_sound (corpus : corpus_t) :
  links_closedb corpus = true -> links_closed corpus.
Proof.
  unfold links_closedb, links_closed. intros H.
  apply Forall_forall. intros kv Hin l Hl.
  rewrite forallb_forall in H. specialize (H kv Hin).
  rewrite forallb_forall in H. apply set_mem_In. now apply H.
Qed.

Lemma is_graphb_sound (corpus : corpus_t) :
  is_graphb corpus = true -> is_graph corpus.
Proof.
  unfold is_graphb. intros H. apply andb_prop in H as [Hc Hl]. split.
  - now apply is_corpusb_sound.
  - now apply links_closedb_sound.
Qed.

Lemma keys_app {V : Type} (d1 d2 : dict V) :
  keys (d1 ++ d2) = keys d1 ++ keys d2.
Proof. unfold keys. apply map_app. Qed.

Lemma dict_get_app_notin {V : Type} (pre d : dict V) (k : string) :
  ~ In k (keys pre) -> dict_get (pre ++ d) k = dict_get d k.
Proof.
  induction pre as [|[k' v'] pre IH]; simpl; intros H.
  - reflexivity.
  - destruct (String.eqb_spec k k') as [->|Hne].
    + exfalso. apply H. now left.
    + apply IH. intros Hin. apply H. now right.
Qed.

Lemma dict_set_app_notin {V : Type} (pre d : dict V) (k : string) (v : V) :
  ~ In k (keys pre) -> dict_set (pre ++ d) k v = pre ++ dict_set d k v.
Proof.
  induction pre as [|[k' v'] pre IH]; simpl; intros H.
  - reflexivity.
  - destruct (String.eqb_spec k k') as [->|Hne].
    + exfalso. apply H. now left.
    + f_equal. apply IH. intros Hin. apply H. now right.
Qed.

Lemma dict_set_new {V : Type} (d : dict V) (k : string) (v : V) :
  ~ In k (keys d) -> dict_set d k v = d ++ [(k, v)].
Proof.
  intros H. rewrite <- (app_nil_r d) at 1.
  now rewrite dict_set_app_notin.
Qed.

Lemma dict_get_last {V : Type} (d : dict V) (k : string) (v : V) :
  ~ In k (keys d) -> dict_get (d ++ [(k, v)]) k = Ok v.
Proof.
  intros H. rewrite dict_get_app_notin by assumption.
  simpl. now rewrite String.eqb_refl.
Qed.

Lemma dict_set_last {V : Type} (d : dict V) (k : string) (v w : V) :
  ~ In k (keys d) -> dict_set (d ++ [(k, v)]) k w = d ++ [(k, w)].
Proof.
  intros H. rewrite dict_set_app_notin by assumption.
  simpl. now rewrite String.eqb_refl.
Qed.

Lemma dict_get_In {V : Type} (d : dict V) (k : string) :
  In k (keys d) -> exists v, dict_get d k = Ok v /\ In (k, v) d.
Proof.
  induction d as [|[k' v'] d IH]; simpl; intros H.
  - contradiction.
  - destruct (String.eqb_spec k k') as [->|Hne].
    + exists v'. split; [reflexivity | now left].
    + destruct H as [H|H]; [congruence|].
      destruct (IH H) as [v [Hg Hin]]. exists v. split; [assumption | now right].
Qed.

Lemma dict_get_Ok_In {V : Type} (d : dict V) (k : string) (v : V) :
  dict_get d k = Ok v -> In (k, v) d.
Proof.
  induction d as [|[k' v'] d IH]; simpl; intros H.
  - discriminate.
  - destruct (String.eqb_spec k k') as [->|Hne].
    + inversion H. now left.
    + right. now apply IH.
Qed.

Lemma dict_get_map {V : Type} (f : string -> V) (ks : list string)
  (k : string) :
  In k ks -> dict_get (map (fun k => (k, f k)) ks) k = Ok (f k).
Proof.
  induction ks as [|k' ks IH]; simpl; intros H.
  - contradiction.
  - destruct (String.eqb_spec k k') as [->|Hne]; [reflexivity|].
    destruct H as [H|H]; [congruence | now apply IH].
Qed.

(** A loop that assigns a fresh key at every turn builds the dictionary in
    the order of the iteration. *)
Lemma for_each_build {V : Type} (f : string -> V)
  (body : string -> dict V -> result (dict V)) (ks : list string) :
  forall acc : dict V,
    NoDup ks ->
    (forall k, In k ks -> ~ In k (keys acc)) ->
    (forall acc' k, In k ks -> ~ In k (keys acc') ->
                    body k acc' = Ok (acc' ++ [(k, f k)])) ->
    for_each ks body acc = Ok (acc ++ map (fun k => (k, f k)) ks).
Proof.
  induction ks as [|k ks IH]; intros acc Hnd Hfresh Hbody; simpl.
  - now rewrite app_nil_r.
  - inversion Hnd as [|? ? Hk Hnd']; subst.
    rewrite Hbody; [|now left | apply Hfresh; now left]. simpl.
    rewrite IH.
    + now rewrite <- app_assoc.
    + assumption.
    + intros k' Hin. rewrite keys_app, in_app_iff. simpl.
      intros [H|[H|[]]].
      * apply (Hfresh k'); [now right | assumption].
      * subst. contradiction.
    + intros acc' k' Hin. apply Hbody. now right.
Qed.

(** A loop over the keys of a dictionary that reassigns the key of every
    turn maps the dictionary. *)
Lemma for_each_update {V : Type} (g : string -> V -> V)
  (body : string -> dict V -> result (dict V)) (suf : dict V) :
  forall pre : dict V,
    is_dict (pre ++ suf) ->
    (forall acc k v, In k (keys suf) -> dict_get acc k = Ok v ->
                     body k acc = Ok (dict_set acc k (g k v))) ->
    for_each (keys suf) body (pre ++ suf)
    = Ok (pre ++ map (fun kv => (fst kv, g (fst kv) (snd kv))) suf).
Proof.
  unfold is_dict.
  induction suf as [|[k v] suf IH]; intros pre Hnd Hbody; simpl.
  - reflexivity.
  - rewrite keys_app in Hnd. simpl in Hnd.
    assert (Hk : ~ In k (keys pre)).
    { apply NoDup_remove_2 in Hnd. intros H. apply Hnd.
      apply in_app_iff. now left. }
    rewrite (Hbody _ k v).
    + simpl. rewrite dict_set_app_notin by assumption. simpl.
      rewrite String.eqb_refl.
      change (pre ++ (k, g k v) :: suf) with (pre ++ [(k, g k v)] ++ suf).
      rewrite app_assoc. rewrite IH.
      * now rewrite <- app_assoc.
      * rewrite !keys_app. simpl. rewrite <- app_assoc. exact Hnd.
      * intros acc k' v' Hin. apply Hbody. now right.
    + now left.
    + rewrite dict_get_app_notin by assumption.
      simpl. now rewrite String.eqb_refl.
Qed.

Lemma keys_map_fst {V W : Type} (h : string * V -> W) (d : dict V) :
  keys (map (fun kv => (fst kv, h kv)) d) = keys d.
Proof.
  unfold keys. rewrite map_map. reflexivity.
Qed.

Lemma keys_map_keys {V : Type} (f : string -> V) (ks : list string) :
  keys (map (fun k => (k, f k)) ks) = ks.
Proof.
  unfold keys. rewrite map_map. simpl. apply map_id.
Qed.

(** * Facts about sums and lengths *)

Lemma len_cons {A : Type} (x : A) (l : list A) : len (x :: l) == 1 + len l.
Proof.
  unfold len. simpl List.length. rewrite Nat2Z.inj_succ. unfold Z.succ.
  rewrite inject_Z_plus. ring.
Qed.

Lemma len_pos {A : Type} (l : list A) : l <> [] -> 0 < len l.
Proof.
  destruct l as [|x l]; [congruence|]. intros _.
  unfold len, Qlt. simpl. lia.
Qed.

Lemma len_nonzero {A : Type} (l : list A) : l <> [] -> ~ len l == 0.
Proof.
  intros H Heq. apply len_pos in H. rewrite Heq in H.
  now apply Qlt_irrefl in H.
Qed.

Lemma py_div_Ok (x y : Q) : ~ y == 0 -> py_div x y = Ok (x / y).
Proof.
  intros H. unfold py_div.
  destruct (Qeq_bool y 0) eqn:E; [|reflexivity].
  apply Qeq_bool_iff in E. contradiction.
Qed.

Lemma truthy_nonempty {A : Type} (l : list A) : truthy l = true -> l <> [].
Proof. destruct l; simpl; congruence. Qed.

Lemma In_nonempty {A : Type} (x : A) (l : list A) : In x l -> l <> [].
Proof. destruct l; simpl; [contradiction | congruence]. Qed.

Lemma keys_nonempty {V : Type} (d : dict V) (k : string) :
  In k (keys d) -> d <> [].
Proof. destruct d; simpl; [contradiction | congruence]. Qed.

Lemma values_map_keys {V : Type} (f : string -> V) (ks : list string) :
  values (map (fun k => (k, f k)) ks) = map f ks.
Proof. unfold values. rewrite map_map. reflexivity. Qed.

Lemma len_keys {V : Type} (d : dict V) : len (keys d) = len d.
Proof. unfold len, keys. now rewrite length_map. Qed.

Lemma sumQ_map_ext {A : Type} (f g : A -> Q) (l : list A) :
  (forall x, In x l -> f x == g x) -> sumQ (map f l) == sumQ (map g l).
Proof.
  induction l as [|x l IH]; simpl; intros H.
  - reflexivity.
  - rewrite (H x) by now left. rewrite IH; [reflexivity|].
    intros y Hy. apply H. now right.
Qed.

Lemma sumQ_map_plus {A : Type} (f g : A -> Q) (l : list A) :
  sumQ (map (fun x => f x + g x) l) == sumQ (map f l) + sumQ (map g l).
Proof.
  induction l as [|x l IH]; simpl.
  - ring.
  - rewrite IH. ring.
Qed.

Lemma sumQ_map_scale {A : Type} (c : Q) (f : A -> Q) (l : list A) :
  sumQ (map (fun x => c * f x) l) == c * sumQ (map f l).
Proof.
  induction l as [|x l IH]; simpl.
  - ring.
  - rewrite IH. ring.
Qed.

Lemma sumQ_map_const {A : Type} (c : Q) (l : list A) :
  sumQ (map (fun _ => c) l) == len l * c.
Proof.
  induction l as [|x l IH].
  - unfold len. simpl. ring.
  - simpl map. simpl sumQ. rewrite IH, len_cons. ring.
Qed.

Lemma sumQ_map_indicator {A : Type} (p : A -> bool) (c : Q) (l : list A) :
  sumQ (map (fun x => if p x then c else 0) l) == len (filter p l) * c.
Proof.
  induction l as [|x l IH].
  - unfold len. simpl. ring.
  - simpl map. simpl sumQ. simpl filter. destruct (p x).
    + rewrite IH, len_cons. ring.
    + rewrite IH. ring.
Qed.


(** The pages of the corpus that belong to a link set are as many as the
    links, when the links are pages of the corpus. *)
Lemma linked_pages_count (ks links : list string) :
  NoDup ks -> NoDup links -> incl links ks ->
  List.length (filter (fun k => set_mem k links) ks) = List.length links.
Proof.
  intros Hks Hl Hincl. apply Nat.le_antisymm.
  - apply NoDup_incl_length.
    + now apply NoDup_filter.
    + intros k Hk. apply filter_In in Hk as [_ Hk]. now apply set_mem_In.
  - apply NoDup_incl_length; [assumption|].
    intros k Hk. apply filter_In. split.
    + now apply Hincl.
    + now apply set_mem_In.
Qed.

Lemma corpus_entry (corpus : corpus_t) (page : string) (links : list string) :
  is_corpus corpus -> links_closed corpus ->
  dict_get corpus page = Ok links ->
  NoDup links /\ incl links (keys corpus).
Proof.
  intros [_ Hs] Hc Hget. apply dict_get_Ok_In in Hget.
  unfold links_closed in Hc. rewrite Forall_forall in Hs, Hc.
  split; [apply (Hs _ Hget) | apply (Hc _ Hget)].
Qed.

(** * transition_model *)

Lemma transition_model_eq (corpus : corpus_t) (page : string)
  (links : list string) (d : Q) :
  is_dict corpus ->
  dict_get corpus page = Ok links ->
  transition_model corpus page d
  = Ok (map (fun k => (k, transition_value corpus links d k)) (keys corpus)).
Proof.
  intros Hnd Hget. unfold transition_model. rewrite Hget. simpl bind.
  destruct (truthy links) eqn:Ht.
  - rewrite (for_each_build (transition_value corpus links d)); try easy.
    intros acc k Hin Hfresh.
    rewrite py_div_Ok by (apply len_nonzero; eapply keys_nonempty; eauto).
    simpl bind. unfold transition_value. rewrite Ht.
    rewrite dict_set_new by assumption.
    destruct (set_mem k links) eqn:Hm; [|reflexivity].
    rewrite dict_get_last by assumption. simpl bind.
    rewrite py_div_Ok by (apply len_nonzero; now apply truthy_nonempty).
    simpl bind. now rewrite dict_set_last.
  - rewrite (for_each_build (transition_value corpus links d)); try easy.
    intros acc k Hin Hfresh.
    rewrite py_div_Ok by (apply len_nonzero; eapply keys_nonempty; eauto).
    simpl bind. unfold transition_value. rewrite Ht.
    now rewrite dict_set_new.
Qed.

Lemma transition_value_sum (corpus : corpus_t) (links : list string) (d : Q) :
  corpus <> [] -> is_dict corpus -> NoDup links -> incl links (keys corpus) ->
  sumQ (map (transition_value corpus links d) (keys corpus)) == 1.
Proof.
  intros Hne Hnd Hl Hincl. unfold transition_value.
  pose proof (len_nonzero corpus Hne) as HN.
  destruct (truthy links) eqn:Ht.
  - pose proof (len_nonzero links (truthy_nonempty _ Ht)) as HL.
    rewrite (sumQ_map_ext _
               (fun k => (1 - d) / len corpus
                         + (if set_mem k links then d / len links else 0))).
    + rewrite sumQ_map_plus, sumQ_map_const, sumQ_map_indicator.
      unfold len at 3. rewrite linked_pages_count by assumption.
      fold (len links). rewrite len_keys. now field.
    + intros k _. destruct (set_mem k links); ring.
  - rewrite sumQ_map_const, len_keys. now field.
Qed.

Lemma transition_value_nonneg (corpus : corpus_t) (links : list string)
  (d : Q) (k : string) :
  corpus <> [] -> 0 <= d -> d <= 1 -> 0 <= transition_value corpus links d k.
Proof.
  intros Hne H0 H1. unfold transition_value.
  pose proof (len_pos corpus Hne) as HN.
  assert (Hbase : 0 <= (1 - d) / len corpus).
  { apply Qle_shift_div_l; [assumption|]. rewrite Qmult_0_l.
    unfold Qminus. rewrite <- (Qplus_opp_r d).
    apply Qplus_le_compat; [assumption | apply Qle_refl]. }
  destruct (truthy links) eqn:Ht.
  - destruct (set_mem k links); [|assumption].
    pose proof (len_pos links (truthy_nonempty _ Ht)) as HL.
    rewrite <- (Qplus_0_l 0). apply Qplus_le_compat; [assumption|].
    apply Qle_shift_div_l; [assumption|]. now rewrite Qmult_0_l.
  - apply Qle_shift_div_l; [assumption|]. rewrite Qmult_0_l. discriminate.
Qed.

(** * sample_pagerank *)

Lemma zero_table_init (corpus : corpus_t) :
  is_dict corpus ->
  for_each (keys corpus) (fun page pagerank => Ok (dict_set pagerank page 0)) []
  = Ok (zero_table corpus).
Proof.
  intros Hnd.
  rewrite (for_each_build (fun _ => 0)); try easy.
  intros acc k _ Hfresh. now rewrite dict_set_new.
Qed.

Lemma random_choice_In (rs : random_source) (seq : list string) :
  seq <> [] -> exists p, random_choice rs seq = Ok p /\ In p seq.
Proof.
  intros Hne. unfold random_choice.
  destruct seq as [|x seq']; [congruence|].
  set (l := x :: seq') in *.
  destruct (nth_error l (rs_index rs (List.length l) mod List.length l))
    as [p|] eqn:E.
  - exists p. split; [reflexivity | eapply nth_error_In; eauto].
  - exfalso. apply nth_error_None in E.
    assert (List.length l <> 0)%nat by (subst l; simpl; lia).
    pose proof (Nat.mod_upper_bound (rs_index rs (List.length l))
                  (List.length l) H). lia.
Qed.

Lemma accumulate_from_length (w : list Q) :
  forall acc, List.length (accumulate_from acc w) = List.length w.
Proof. induction w as [|x w IH]; intros acc; simpl; [|rewrite IH]; reflexivity. Qed.

Lemma accumulate_length (w : list Q) :
  List.length (accumulate w) = List.length w.
Proof. destruct w; simpl; [|rewrite accumulate_from_length]; reflexivity. Qed.

Lemma accumulate_from_total (w : list Q) :
  forall acc x, exists t r,
    rev (accumulate_from acc (x :: w)) = t :: r /\ t == acc + sumQ (x :: w).
Proof.
  induction w as [|y w IH]; intros acc x.
  - exists (acc + x), []. split; [reflexivity | simpl; ring].
  - destruct (IH (acc + x) y) as [t [r [Hr Ht]]].
    exists t, (r ++ [acc + x]). split.
    + change (accumulate_from acc (x :: y :: w))
        with ((acc + x) :: accumulate_from (acc + x) (y :: w)).
      change (rev ((acc + x) :: accumulate_from (acc + x) (y :: w)))
        with (rev (accumulate_from (acc + x) (y :: w)) ++ [acc + x]).
      now rewrite Hr.
    + rewrite Ht. simpl. ring.
Qed.

Lemma accumulate_total (w : list Q) :
  w <> [] ->
  exists t r, rev (accumulate w) = t :: r /\ t == sumQ w.
Proof.
  destruct w as [|x w]; [congruence|]. intros _.
  destruct w as [|y w].
  - exists x, []. split; [reflexivity | simpl; ring].
  - destruct (accumulate_from_total w x y) as [t [r [Hr Ht]]].
    exists t, (r ++ [x]). split.
    + change (rev (accumulate (x :: y :: w)))
        with (rev (accumulate_from x (y :: w)) ++ [x]).
      now rewrite Hr.
    + rewrite Ht. simpl. ring.
Qed.

Lemma bisect_right_bounds (fuel : nat) (a : list Q) (x : Q) :
  forall lo hi, (lo <= hi)%nat ->
    (lo <= bisect_right fuel a x lo hi <= hi)%nat.
Proof.
  induction fuel as [|fuel IH]; intros lo hi Hle; cbn [bisect_right].
  - lia.
  - destruct (Nat.ltb_spec lo hi) as [Hlt|Hge]; [|lia].
    assert (Hmid : (lo <= (lo + hi) / 2 < hi)%nat).
    { split.
      - apply Nat.div_le_lower_bound; lia.
      - apply Nat.Div0.div_lt_upper_bound; lia. }
    destruct (Qlt_bool x (nth ((lo + hi) / 2) a 0)).
    + specialize (IH lo ((lo + hi) / 2)%nat). lia.
    + specialize (IH ((lo + hi) / 2 + 1)%nat hi). lia.
Qed.

(** [random.choices] succeeds and picks a member of the population as
    soon as the weights are as many as the members and sum to a positive
    total. *)
Lemma random_choices_In (u : Q) (population : list string) (weights : list Q) :
  population <> [] ->
  List.length weights = List.length population ->
  0 < sumQ weights ->
  exists p, random_choices u population weights = Ok p /\ In p population.
Proof.
  intros Hne Hlen Hpos. unfold random_choices.
  rewrite accumulate_length, Hlen, Nat.eqb_refl. simpl negb. cbv iota.
  assert (Hw : weights <> []).
  { destruct weights; [|congruence]. destruct population; simpl in *; congruence. }
  destruct (accumulate_total weights Hw) as [t [r [Hr Ht]]].
  rewrite Hr.
  destruct (Qle_bool t 0) eqn:E.
  - apply Qle_bool_iff in E. rewrite Ht in E.
    exfalso. apply (Qlt_irrefl 0). eapply Qlt_le_trans; eauto.
  - set (hi := (List.length population - 1)%nat).
    pose proof (bisect_right_bounds (S hi) (accumulate weights) (u * t) 0 hi
                  (Nat.le_0_l hi)) as [_ Hb].
    destruct (nth_error population
                (bisect_right (S hi) (accumulate weights) (u * t) 0 hi))
      as [p|] eqn:En.
    + exists p. split; [reflexivity | eapply nth_error_In; eauto].
    + exfalso. apply nth_error_None in En.
      assert (List.length population <> 0)%nat.
      { destruct population; simpl; [congruence | lia]. }
      subst hi. lia.
Qed.

Lemma dict_get_map_values {V : Type} (g : string -> V -> V) (d : dict V)
  (k : string) (v : V) :
  dict_get d k = Ok v ->
  dict_get (map (fun kv => (fst kv, g (fst kv) (snd kv))) d) k = Ok (g k v).
Proof.
  induction d as [|[k' v'] d IH]; simpl; intros H.
  - discriminate.
  - destruct (String.eqb_spec k k') as [->|Hne].
    + now inversion H.
    + now apply IH.
Qed.

Lemma sumQ_map_average {A : Type} (a b : Q) (f g : A -> Q) (l : list A) :
  ~ b == 0 ->
  sumQ (map (fun x => (a * f x + g x) / b) l)
  == (a * sumQ (map f l) + sumQ (map g l)) / b.
Proof.
  intros Hb. induction l as [|x l IH]; simpl.
  - now field.
  - rewrite IH. now field.
Qed.

Lemma inject_Z_nonzero (i : Z) : (1 <= i)%Z -> ~ inject_Z i == 0.
Proof.
  intros Hi H. unfold Qeq in H. simpl in H. lia.
Qed.

Lemma inject_Z_pred (i : Z) : inject_Z (i - 1) == inject_Z i - 1.
Proof.
  replace (i - 1)%Z with (i + - (1))%Z by lia.
  rewrite inject_Z_plus, inject_Z_opp. reflexivity.
Qed.

Lemma running_average_one (i : Z) (s : Q) :
  (1 <= i)%Z -> i = 1%Z \/ s == 1 -> running_average i s 1 == 1.
Proof.
  intros Hi Hs. unfold running_average.
  pose proof (inject_Z_nonzero i Hi) as Hnz.
  rewrite inject_Z_pred.
  destruct Hs as [->|Hs].
  - change (inject_Z 1) with 1. field.
  - rewrite Hs. now field.
Qed.

(** One turn of the sampling loop, in closed form. *)
Lemma sample_step_eq (corpus : corpus_t) (d : Q) (rs : random_source)
  (i : Z) (pagerank : table) (page : string) (links : list string) :
  is_dict corpus ->
  keys pagerank = keys corpus ->
  dict_get corpus page = Ok links ->
  (1 <= i)%Z ->
  sample_step corpus d rs i (pagerank, page)
  = (let averages :=
       map (fun kv =>
              (fst kv,
               running_average i (snd kv)
                 (transition_value corpus links d (fst kv)))) pagerank in
     page' <- random_choices (rs_unit rs i) (keys averages) (values averages) ;;
     Ok (averages, page')).
Proof.
  intros Hnd Hkeys Hget Hi. unfold sample_step.
  rewrite (transition_model_eq corpus page links d Hnd Hget). simpl bind.
  pose proof (for_each_update
                (fun k v => running_average i v (transition_value corpus links d k))
                (fun page pagerank =>
                   old <- dict_get pagerank page ;;
                   cur <- dict_get
                            (map (fun k => (k, transition_value corpus links d k))
                               (keys corpus)) page ;;
                   v <- py_div (inject_Z (i - 1) * old + cur) (inject_Z i) ;;
                   Ok (dict_set pagerank page v))
                pagerank []) as Hloop.
  simpl app in Hloop. rewrite Hloop.
  - reflexivity.
  - unfold is_dict. now rewrite Hkeys.
  - intros acc k v Hin Hacc. rewrite Hacc. simpl bind.
    rewrite dict_get_map by (now rewrite <- Hkeys). simpl bind.
    rewrite py_div_Ok by (now apply inject_Z_nonzero). reflexivity.
Qed.


Lemma values_map_fst {V : Type} (h : string * V -> V) (d : dict V) :
  values (map (fun kv => (fst kv, h kv)) d) = map h d.
Proof. unfold values. rewrite map_map. reflexivity. Qed.

(** One turn keeps the invariant, makes the averages sum to one, and is a
    step of the walk. *)
Lemma sample_step_ok (corpus : corpus_t) (d : Q) (rs : random_source)
  (i : Z) (st : table * string) :
  is_corpus corpus -> links_closed corpus ->
  (1 <= i)%Z -> sample_inv corpus i st ->
  exists st',
    sample_step corpus d rs i st = Ok st'
    /\ sample_inv corpus (i + 1) st'
    /\ sumQ (values (fst st')) == 1
    /\ forall count st'',
         walk corpus d rs (i + 1) count st' st'' ->
         walk corpus d rs i (S count) st st''.
Proof.
  intros Hc Hcl Hi [Hkeys [Hpage Hsum]].
  destruct st as [pagerank page]. simpl in Hkeys, Hpage, Hsum.
  pose proof Hc as [Hnd _].
  destruct (dict_get_In corpus page Hpage) as [links [Hget _]].
  destruct (corpus_entry corpus page links Hc Hcl Hget) as [Hl Hincl].
  pose proof (keys_nonempty corpus page Hpage) as Hne.
  rewrite (sample_step_eq corpus d rs i pagerank page links Hnd Hkeys Hget Hi).
  cbv zeta.
  set (averages :=
         map (fun kv =>
                (fst kv,
                 running_average i (snd kv)
                   (transition_value corpus links d (fst kv)))) pagerank).
  assert (Hk' : keys averages = keys corpus).
  { unfold averages. now rewrite keys_map_fst. }
  assert (Hs' : sumQ (values averages) == 1).
  { unfold averages. rewrite values_map_fst. unfold running_average.
    rewrite (sumQ_map_average (inject_Z (i - 1)) (inject_Z i) snd
               (fun kv => transition_value corpus links d (fst kv)))
      by (now apply inject_Z_nonzero).
    rewrite <- (map_map fst (transition_value corpus links d)).
    fold (keys pagerank). rewrite Hkeys.
    rewrite (transition_value_sum corpus links d Hne Hnd Hl Hincl).
    fold (values pagerank). now apply running_average_one. }
  destruct (random_choices_In (rs_unit rs i) (keys averages) (values averages))
    as [page' [Hdraw Hin]].
  - rewrite Hk'. eapply In_nonempty; eauto.
  - unfold keys, values. now rewrite !length_map.
  - rewrite Hs'. reflexivity.
  - rewrite Hdraw. simpl bind. exists (averages, page'). split; [reflexivity|].
    split; [|split].
    + split; [assumption|]. split; [now rewrite <- Hk' | now right].
    + assumption.
    + intros count st'' Hw.
      apply (walk_step corpus d rs i count pagerank page
               (map (fun k => (k, transition_value corpus links d k))
                  (keys corpus))
               averages page' st'').
      * apply (transition_model_eq corpus page links d Hnd Hget).
      * now rewrite Hk'.
      * intros node old Hold.
        exists (transition_value corpus links d node). split.
        -- apply dict_get_map. rewrite <- Hkeys.
           apply dict_get_Ok_In in Hold.
           unfold keys. now apply (in_map fst) in Hold.
        -- unfold averages.
           apply (dict_get_map_values
                    (fun k v => running_average i v
                                  (transition_value corpus links d k))).
           assumption.
      * assumption.
      * assumption.
Qed.

(** The whole loop: [count] turns from index [i] are a walk of [count]
    steps, and the averages sum to one as soon as one turn was taken. *)
Lemma sample_loop_ok (corpus : corpus_t) (d : Q) (rs : random_source)
  (count : nat) :
  is_corpus corpus -> links_closed corpus ->
  forall i st,
    (1 <= i)%Z -> sample_inv corpus i st ->
    exists st',
      for_each (range_from i count) (sample_step corpus d rs) st = Ok st'
      /\ walk corpus d rs i count st st'
      /\ keys (fst st') = keys corpus
      /\ (count <> 0%nat -> sumQ (values (fst st')) == 1).
Proof.
  intros Hc Hcl. induction count as [|count IH]; intros i st Hi Hinv.
  - exists st. split; [reflexivity|]. split; [constructor|].
    split; [apply Hinv | congruence].
  - destruct (sample_step_ok corpus d rs i st Hc Hcl Hi Hinv)
      as [st1 [Hstep [Hinv1 [Hsum1 Hwalk]]]].
    destruct (IH (i + 1)%Z st1 ltac:(lia) Hinv1)
      as [st' [Hrun [Hw [Hk Hs]]]].
    exists st'. simpl. rewrite Hstep. simpl bind.
    split; [assumption|]. split; [now apply Hwalk|]. split; [assumption|].
    intros _. destruct count as [|count'].
    + simpl in Hrun. inversion Hrun. now subst.
    + now apply Hs.
Qed.

(** * iterate_pagerank *)

Lemma rank_sum_loop (corpus : corpus_t) (pagerank : table) (page : string)
  (ks : list string) :
  forall sum,
    (forall k, In k ks -> In k (keys corpus) /\ In k (keys pagerank)) ->
    for_each ks
      (fun newpage sum =>
         links <- dict_get corpus newpage ;;
         sum <-
           (if set_mem page links then
              r <- dict_get pagerank newpage ;;
              links <- dict_get corpus newpage ;;
              q <- py_div r (len links) ;;
              Ok (sum + q)
            else Ok sum) ;;
         links <- dict_get corpus newpage ;;
         if negb (truthy links) then
           r <- dict_get pagerank newpage ;;
           q <- py_div r (len corpus) ;;
           Ok (sum + q)
         else Ok sum)
      sum
    = Ok (fold_left (add_share corpus pagerank page) ks sum).
Proof.
  induction ks as [|k ks IH]; intros sum Hks.
  - reflexivity.
  - destruct (Hks k (or_introl eq_refl)) as [Hkc Hkp].
    destruct (dict_get_In corpus k Hkc) as [links [Hget _]].
    destruct (dict_get_In pagerank k Hkp) as [r [Hr _]].
    pose proof (len_nonzero corpus (keys_nonempty corpus k Hkc)) as HN.
    cbn [for_each fold_left]. rewrite Hget, Hr. cbn [bind].
    assert (Hstep :
              (sum0 <-
                 (if set_mem page links
                  then q <- py_div r (len links) ;; Ok (sum + q)
                  else Ok sum) ;;
               (if negb (truthy links)
                then q <- py_div r (len corpus) ;; Ok (sum0 + q)
                else Ok sum0))
              = Ok (add_share corpus pagerank page sum k)).
    { unfold add_share, links_of, rank_of. rewrite Hget, Hr.
      rewrite (py_div_Ok r (len corpus) HN).
      destruct (set_mem page links) eqn:Hm.
      - assert (HL : ~ len links == 0).
        { apply len_nonzero. apply set_mem_In in Hm.
          eapply In_nonempty; eauto. }
        rewrite (py_div_Ok r (len links) HL). cbn [bind].
        destruct (truthy links); reflexivity.
      - cbn [bind]. destruct (truthy links); reflexivity. }
    rewrite Hstep. cbn [bind]. apply IH.
    intros k' Hk'. apply Hks. now right.
Qed.

Lemma rank_sum_eq (corpus : corpus_t) (pagerank : table) (page : string) :
  keys pagerank = keys corpus ->
  rank_sum corpus pagerank page
  = Ok (fold_left (add_share corpus pagerank page) (keys corpus) 0).
Proof.
  intros Hkeys. unfold rank_sum. apply rank_sum_loop.
  intros k Hk. split; [assumption | now rewrite Hkeys].
Qed.

(** The first inner loop of the pass, in closed form. *)
Lemma new_ranks_eq (corpus : corpus_t) (d : Q) (pagerank : table) :
  is_dict corpus -> keys pagerank = keys corpus ->
  new_ranks corpus d pagerank
  = Ok (map (fun kv => (fst kv, new_rank corpus d pagerank (fst kv))) pagerank).
Proof.
  intros Hnd Hkeys. unfold new_ranks.
  pose proof (for_each_update
                (fun k _ => new_rank corpus d pagerank k)
                (fun page newrank =>
                   sum <- rank_sum corpus pagerank page ;;
                   base <- py_div (1 - d) (len corpus) ;;
                   Ok (dict_set newrank page (base + d * sum)))
                pagerank []) as Hloop.
  simpl app in Hloop. apply Hloop.
  - unfold is_dict. now rewrite Hkeys.
  - intros acc k v Hin _.
    rewrite (rank_sum_eq corpus pagerank k Hkeys). cbn [bind].
    rewrite py_div_Ok.
    + reflexivity.
    + apply len_nonzero. apply (keys_nonempty corpus k). now rewrite <- Hkeys.
Qed.

(** The second inner loop of the pass, in closed form. *)
Lemma compare_and_store_loop (f : string -> Q) (newrank : table)
  (suf : table) :
  forall (pre : table) (change : bool),
    is_dict (pre ++ suf) ->
    (forall k, In k (keys suf) -> dict_get newrank k = Ok (f k)) ->
    for_each (keys suf)
      (fun page st =>
         let '(change, pagerank) := st in
         new <- dict_get newrank page ;;
         old <- dict_get pagerank page ;;
         let change :=
           if negb (isclose new old (1 # 1000)) then true else change in
         new <- dict_get newrank page ;;
         Ok (change, dict_set pagerank page new))
      (change, pre ++ suf)
    = Ok (change || changed f suf,
          pre ++ map (fun kv => (fst kv, f (fst kv))) suf).
Proof.
  unfold is_dict.
  induction suf as [|[k v] suf IH]; intros pre change Hnd Hnew.
  - simpl. now rewrite orb_false_r.
  - rewrite keys_app in Hnd. simpl in Hnd.
    assert (Hk : ~ In k (keys pre)).
    { apply NoDup_remove_2 in Hnd. intros H. apply Hnd.
      apply in_app_iff. now left. }
    cbn [keys map fst for_each].
    rewrite (Hnew k) by now left. cbn [bind].
    rewrite dict_get_app_notin by assumption.
    cbn [dict_get]. rewrite String.eqb_refl. cbn [bind].
    rewrite dict_set_app_notin by assumption.
    cbn [dict_set]. rewrite String.eqb_refl.
    change (pre ++ (k, f k) :: suf) with (pre ++ [(k, f k)] ++ suf).
    rewrite app_assoc.
    fold (keys suf).
    rewrite IH.
    + rewrite <- app_assoc. unfold changed. cbn [existsb map fst snd app].
      destruct (isclose (f k) v (1 # 1000)), change; reflexivity.
    + rewrite !keys_app. simpl. rewrite <- app_assoc. exact Hnd.
    + intros k' Hk'. apply Hnew. now right.
Qed.

Lemma update_pass_eq (corpus : corpus_t) (d : Q) (pagerank : table) :
  is_dict corpus -> keys pagerank = keys corpus ->
  update_pass corpus d pagerank
  = Ok (changed (new_rank corpus d pagerank) pagerank,
        map (fun kv => (fst kv, new_rank corpus d pagerank (fst kv))) pagerank).
Proof.
  intros Hnd Hkeys. unfold update_pass.
  rewrite (new_ranks_eq corpus d pagerank Hnd Hkeys). cbn [bind].
  unfold compare_and_store.
  pose proof (compare_and_store_loop (new_rank corpus d pagerank)
                (map (fun kv => (fst kv, new_rank corpus d pagerank (fst kv)))
                   pagerank)
                pagerank [] false) as Hloop.
  simpl app in Hloop. simpl orb in Hloop. apply Hloop.
  - unfold is_dict. now rewrite Hkeys.
  - intros k Hk. destruct (dict_get_In pagerank k Hk) as [v [Hv _]].
    apply (dict_get_map_values (fun k _ => new_rank corpus d pagerank k)
             pagerank k v Hv).
Qed.

Lemma fold_left_add_share (corpus : corpus_t) (pagerank : table)
  (page : string) (ks : list string) :
  forall sum,
    fold_left (add_share corpus pagerank page) ks sum
    == sum + sumQ (map (share corpus pagerank page) ks).
Proof.
  induction ks as [|k ks IH]; intros sum; simpl.
  - ring.
  - rewrite IH. unfold add_share, share.
    destruct (set_mem page (links_of corpus k)),
      (truthy (links_of corpus k)); simpl; ring.
Qed.

Lemma sumQ_swap {A B : Type} (f : A -> B -> Q) (xs : list A) (ys : list B) :
  sumQ (map (fun x => sumQ (map (f x) ys)) xs)
  == sumQ (map (fun y => sumQ (map (fun x => f x y) xs)) ys).
Proof.
  induction xs as [|x xs IH]; simpl.
  - rewrite sumQ_map_const. ring.
  - rewrite IH, <- sumQ_map_plus. reflexivity.
Qed.

Lemma rank_of_keys (t : table) :
  is_dict t -> map (rank_of t) (keys t) = values t.
Proof.
  unfold is_dict. induction t as [|[k v] t IH]; simpl; intros Hnd.
  - reflexivity.
  - inversion Hnd as [|? ? Hk Hnd']; subst.
    unfold rank_of at 1. simpl. rewrite String.eqb_refl. f_equal.
    rewrite <- (IH Hnd'). apply map_ext_in.
    intros k' Hk'. unfold rank_of. simpl.
    destruct (String.eqb_spec k' k) as [->|_]; [contradiction | reflexivity].
Qed.

(** All the shares of the rank of one page add up to that rank. *)
Lemma share_total (corpus : corpus_t) (pagerank : table) (newpage : string) :
  is_corpus corpus -> links_closed corpus ->
  In newpage (keys corpus) ->
  sumQ (map (fun page => share corpus pagerank page newpage) (keys corpus))
  == rank_of pagerank newpage.
Proof.
  intros Hc Hcl Hin. pose proof Hc as [Hnd _].
  destruct (dict_get_In corpus newpage Hin) as [links [Hget _]].
  destruct (corpus_entry corpus newpage links Hc Hcl Hget) as [Hl Hincl].
  pose proof (len_nonzero corpus (keys_nonempty corpus newpage Hin)) as HN.
  unfold share, links_of. rewrite Hget.
  rewrite sumQ_map_plus, sumQ_map_indicator, sumQ_map_const.
  unfold len at 1. rewrite linked_pages_count by assumption.
  fold (len links). rewrite len_keys.
  destruct links as [|l links].
  - simpl truthy. simpl negb. cbv iota. unfold len at 1. simpl List.length.
    change (inject_Z (Z.of_nat 0)) with 0. rewrite Qmult_0_l. now field.
  - simpl truthy. simpl negb. cbv iota.
    assert (HL : ~ len (l :: links) == 0) by (apply len_nonzero; congruence).
    now field.
Qed.

(** The new ranks add up to [(1 - d) + d * total] of the old ranks. *)
Lemma new_rank_total (corpus : corpus_t) (d : Q) (pagerank : table) :
  corpus <> [] -> is_corpus corpus -> links_closed corpus ->
  keys pagerank = keys corpus ->
  sumQ (map (new_rank corpus d pagerank) (keys corpus))
  == (1 - d) + d * sumQ (values pagerank).
Proof.
  intros Hne Hc Hcl Hkeys. pose proof Hc as [Hnd _].
  pose proof (len_nonzero corpus Hne) as HN.
  unfold new_rank.
  rewrite (sumQ_map_ext _
             (fun page => (1 - d) / len corpus
                          + d * sumQ (map (share corpus pagerank page)
                                        (keys corpus)))).
  - rewrite sumQ_map_plus, sumQ_map_const, sumQ_map_scale, len_keys.
    rewrite (sumQ_swap (share corpus pagerank)).
    rewrite (sumQ_map_ext _ (rank_of pagerank)).
    + rewrite <- Hkeys at 1. rewrite rank_of_keys.
      * now field.
      * unfold is_dict. now rewrite Hkeys.
    + intros q Hq. now apply share_total.
  - intros page _. rewrite fold_left_add_share. ring.
Qed.

Lemma uniform_table_init (corpus : corpus_t) :
  is_dict corpus ->
  for_each (keys corpus)
    (fun page pagerank =>
       v <- py_div 1 (len corpus) ;; Ok (dict_set pagerank page v))
    []
  = Ok (uniform_table corpus).
Proof.
  intros Hnd.
  rewrite (for_each_build (fun _ => 1 / len corpus)); try easy.
  intros acc k Hin Hfresh.
  rewrite py_div_Ok by (apply len_nonzero; eapply keys_nonempty; eauto).
  cbn [bind]. now rewrite dict_set_new.
Qed.

(** The loop body ends with [return]: whatever the flag [change] is, the
    call returns the ranks of the first pass. *)
Lemma iterate_pagerank_one_pass (fuel : nat) (corpus : corpus_t) (d : Q) :
  is_dict corpus ->
  iterate_pagerank (S fuel) corpus d
  = Returns
      (Some (map (fun kv =>
                    (fst kv, new_rank corpus d (uniform_table corpus) (fst kv)))
               (uniform_table corpus))).
Proof.
  intros Hnd. unfold iterate_pagerank.
  rewrite (uniform_table_init corpus Hnd).
  cbn [while_loop fst]. unfold iterate_body.
  rewrite update_pass_eq; [reflexivity | assumption |].
  unfold uniform_table. apply keys_map_keys.
Qed.

(** Without turns of the loop the sampler returns its table of zeros. *)
Lemma sample_pagerank_no_steps (corpus : corpus_t) (d : Q) (n : Z)
  (rs : random_source) :
  corpus <> [] -> is_dict corpus -> (n <= 1)%Z ->
  sample_pagerank corpus d n rs = Ok (zero_table corpus).
Proof.
  intros Hne Hnd Hn. unfold sample_pagerank.
  rewrite (zero_table_init corpus Hnd). cbn [bind].
  destruct (random_choice_In rs (keys corpus)) as [p [Hp _]].
  - destruct corpus; simpl; congruence.
  - rewrite Hp. cbn [bind]. unfold py_range.
    replace (Z.to_nat (n - 1)) with 0%nat by lia. reflexivity.
Qed.


(** The sampler in closed form: the first draw, then a walk of [n - 1]
    steps from the table of zeros. *)
Lemma sample_pagerank_run (corpus : corpus_t) (d : Q) (n : Z)
  (rs : random_source) :
  corpus <> [] -> is_graph corpus ->
  exists page0 averages page_end,
    random_choice rs (keys corpus) = Ok page0
    /\ walk corpus d rs 1 (Z.to_nat (n - 1)) (zero_table corpus, page0)
         (averages, page_end)
    /\ sample_pagerank corpus d n rs = Ok averages
    /\ keys averages = keys corpus
    /\ ((2 <= n)%Z -> sumQ (values averages) == 1).
Proof.
  intros Hne [Hc Hcl]. pose proof Hc as [Hnd _].
  destruct (random_choice_In rs (keys corpus)) as [page0 [Hp Hin]].
  { destruct corpus; simpl; congruence. }
  destruct (sample_loop_ok corpus d rs (Z.to_nat (n - 1)) Hc Hcl 1%Z
              (zero_table corpus, page0)) as [[averages page_end] [Hrun [Hw [Hk Hs]]]].
  - lia.
  - split; [|split].
    + unfold zero_table. apply keys_map_keys.
    + assumption.
    + now left.
  - exists page0, averages, page_end.
    split; [assumption|]. split; [assumption|]. split; [|split].
    + unfold sample_pagerank.
      rewrite (zero_table_init corpus Hnd). cbn [bind]. rewrite Hp. cbn [bind].
      unfold py_range. unfold table in *. rewrite Hrun. reflexivity.
    + assumption.
    + intros Hn. apply Hs. lia.
Qed.

(** The first turn from the table of zeros leaves the distribution of the
    first page. *)
Lemma first_step_distribution (corpus : corpus_t) (d : Q) (rs : random_source)
  (page : string) :
  is_graph corpus -> In page (keys corpus) ->
  exists st' dist,
    sample_step corpus d rs 1 (zero_table corpus, page) = Ok st'
    /\ transition_model corpus page d = Ok dist
    /\ sumQ (values dist) == 1
    /\ sumQ (values (fst st')) == 1
    /\ forall node v, dict_get dist node = Ok v ->
         exists a, dict_get (fst st') node = Ok a /\ a == v.
Proof.
  intros [Hc Hcl] Hpage. pose proof Hc as [Hnd _].
  assert (Hinv : sample_inv corpus 1 (zero_table corpus, page)).
  { split; [|split].
    - unfold zero_table. apply keys_map_keys.
    - assumption.
    - now left. }
  destruct (sample_step_ok corpus d rs 1 (zero_table corpus, page) Hc Hcl
              ltac:(lia) Hinv) as [st' [Hstep [_ [Hsum _]]]].
  destruct (dict_get_In corpus page Hpage) as [links [Hget _]].
  destruct (corpus_entry corpus page links Hc Hcl Hget) as [Hl Hincl].
  exists st', (map (fun k => (k, transition_value corpus links d k)) (keys corpus)).
  split; [assumption|]. split; [now apply transition_model_eq|].
  split; [|split; [assumption|]].
  - rewrite values_map_keys. apply transition_value_sum; try assumption.
    eapply keys_nonempty; eauto.
  - intros node v Hv.
    assert (Hnode : In node (keys corpus)).
    { apply dict_get_Ok_In in Hv. apply (in_map fst) in Hv.
      fold (keys (map (fun k => (k, transition_value corpus links d k))
                    (keys corpus))) in Hv.
      now rewrite keys_map_keys in Hv. }
    rewrite dict_get_map in Hv by assumption. inversion Hv; subst v.
    rewrite (sample_step_eq corpus d rs 1 (zero_table corpus) page links)
      in Hstep; try assumption; try lia.
    + cbv zeta in Hstep.
      destruct (random_choices _ _ _) as [page'|e] in Hstep; [|discriminate].
      cbn [bind] in Hstep. inversion Hstep; subst st'. cbn [fst].
      exists (running_average 1 0 (transition_value corpus links d node)).
      split.
      * apply (dict_get_map_values
                 (fun k v => running_average 1 v
                               (transition_value corpus links d k))).
        unfold zero_table. now apply (dict_get_map (fun _ => 0)).
      * unfold running_average. simpl. field.
    + unfold zero_table. apply keys_map_keys.
Qed.

(** * The properties of the specification *)

(** C1.  The specification has [iterate_pagerank] return only when every
    new rank is within [0.001] of its old rank.  On the corpus
    [{"A": set(), "B": {"A"}}] with damping [0.85] the first pass ends with
    [change] set, the rank of [A] having moved from [0.5] to [0.7125], and
    the call returns the ranks of that pass all the same, for every amount
    of fuel: the [return] is the last statement of the loop body. *)
Theorem iterate_pagerank_returns_unconverged :
  exists newrank,
    update_pass g2 (85 # 100) (uniform_table g2) = Ok (true, newrank)
    /\ (forall fuel,
          iterate_pagerank (S fuel) g2 (85 # 100) = Returns (Some newrank))
    /\ rank_of (uniform_table g2) "A" == 1 # 2
    /\ rank_of newrank "A" == 7125 # 10000
    /\ isclose (rank_of newrank "A") (rank_of (uniform_table g2) "A")
         (1 # 1000) = false.
Proof.
  eexists. split; [vm_compute; reflexivity|].
  split; [intros fuel; vm_compute; reflexivity|].
  split; [reflexivity|]. split; reflexivity.
Qed.

(** C2, as stated, fails: on [{"A": set(), "B": {"A"}}] with damping [0.85]
    no amount of fuel makes [iterate_pagerank] return [0.5] for [A] and
    [0.5] for [B]. *)
Lemma iterate_pagerank_sink_pair_not_half :
  ~ (exists fuel a b,
       iterate_pagerank fuel g2 (85 # 100)
       = Returns (Some [("A", a); ("B", b)])
       /\ a == 1 # 2 /\ b == 1 # 2).
Proof.
  intros [fuel [a [b [H [Ha _]]]]].
  destruct fuel as [|fuel].
  - discriminate H.
  - vm_compute in H. inversion H; subst. discriminate Ha.
Qed.

(** C2, amended.  On [{"A": set(), "B": {"A"}}] with damping [0.85], one
    update pass from the uniform start [(0.5, 0.5)] gives [A = 0.7125] and
    [B = 0.2875] and sets [change]; the ranks that a pass leaves as they are
    are [A = 37/57] and [B = 20/57]. *)
Theorem update_pass_sink_pair :
  (exists a b,
     update_pass g2 (85 # 100) [("A", 1 # 2); ("B", 1 # 2)]
     = Ok (true, [("A", a); ("B", b)])
     /\ a == 7125 # 10000 /\ b == 2875 # 10000)
  /\ (exists a b,
        update_pass g2 (85 # 100) [("A", 37 # 57); ("B", 20 # 57)]
        = Ok (false, [("A", a); ("B", b)])
        /\ a == 37 # 57 /\ b == 20 # 57).
Proof.
  split; do 2 eexists; (split; [vm_compute; reflexivity|]);
    split; reflexivity.
Qed.

(** C3.  The specification, like the docstring of [sample_pagerank], has
    the returned values sum to one for every sample count [n >= 1].  For
    [n = 1] the loop [for i in range(1, n)] takes no turn: on
    [{"A": set()}] the call returns [{"A": 0}], whose values sum to zero,
    whatever the draws. *)
Theorem sample_pagerank_single_sample_sums_to_zero (rs : random_source) :
  sample_pagerank g1 (85 # 100) 1 rs = Ok [("A", 0)]
  /\ sumQ (values [("A", 0)]) == 0
  /\ ~ sumQ (values [("A", 0)]) == 1.
Proof.
  split; [|split].
  - apply (sample_pagerank_no_steps g1 (85 # 100) 1 rs).
    + discriminate.
    + apply nodupb_sound. reflexivity.
    + lia.
  - reflexivity.
  - discriminate.
Qed.

(** C4.  For a non-empty graph, a page of the graph and a damping factor
    in [[0, 1]], [transition_model] returns a distribution whose values are
    all non-negative and sum to one. *)
Theorem transition_model_distribution (corpus : corpus_t) (page : string)
  (d : Q) :
  corpus <> [] -> is_graph corpus -> In page (keys corpus) ->
  0 <= d -> d <= 1 ->
  exists dist,
    transition_model corpus page d = Ok dist
    /\ Forall (fun v => 0 <= v) (values dist)
    /\ sumQ (values dist) == 1.
Proof.
  intros Hne [Hc Hcl] Hpage H0 H1. pose proof Hc as [Hnd _].
  destruct (dict_get_In corpus page Hpage) as [links [Hget _]].
  destruct (corpus_entry corpus page links Hc Hcl Hget) as [Hl Hincl].
  exists (map (fun k => (k, transition_value corpus links d k)) (keys corpus)).
  split; [now apply transition_model_eq|].
  rewrite values_map_keys. split.
  - apply Forall_forall. intros v Hv. apply in_map_iff in Hv as [k [<- _]].
    now apply transition_value_nonneg.
  - now apply transition_value_sum.
Qed.

Lemma transition_model_distribution_witness :
  g3 <> [] /\ is_graph g3 /\ In "A" (keys g3)
  /\ 0 <= 85 # 100 /\ 85 # 100 <= 1
  /\ exists dist,
       transition_model g3 "A" (85 # 100) = Ok dist
       /\ Forall (fun v => 0 <= v) (values dist)
       /\ sumQ (values dist) == 1.
Proof.
  assert (Hne : g3 <> []) by discriminate.
  assert (Hg : is_graph g3) by (apply is_graphb_sound; reflexivity).
  assert (Hin : In "A" (keys g3)) by (simpl; now left).
  assert (H0 : 0 <= 85 # 100) by discriminate.
  assert (H1 : 85 # 100 <= 1) by discriminate.
  repeat (split; [assumption|]).
  exact (transition_model_distribution g3 "A" (85 # 100) Hne Hg Hin H0 H1).
Defined.

(** C5.  For a non-empty graph and [n >= 2], [sample_pagerank] is the first
    draw followed by a walk of exactly [n - 1] steps from the table of zeros,
    counted from 1: step [i] computes the distribution of the current page,
    sets the average of every node to
    [((i - 1) * old_average + step_value) / i], and draws the next page by
    [random.choices] over all nodes with the new averages as weights. *)
Theorem sample_pagerank_walk (corpus : corpus_t) (d : Q) (n : Z)
  (rs : random_source) :
  corpus <> [] -> is_graph corpus -> (2 <= n)%Z ->
  exists (steps : nat) page0 averages page_end,
    Z.of_nat steps = (n - 1)%Z
    /\ random_choice rs (keys corpus) = Ok page0
    /\ walk corpus d rs 1 steps (zero_table corpus, page0) (averages, page_end)
    /\ sample_pagerank corpus d n rs = Ok averages.
Proof.
  intros Hne Hg Hn.
  destruct (sample_pagerank_run corpus d n rs Hne Hg)
    as [page0 [averages [page_end [Hp [Hw [Hrun _]]]]]].
  exists (Z.to_nat (n - 1)), page0, averages, page_end.
  split; [lia|]. now repeat split.
Qed.

Lemma sample_pagerank_walk_witness :
  g3 <> [] /\ is_graph g3 /\ (2 <= 4)%Z
  /\ exists (steps : nat) page0 averages page_end,
       Z.of_nat steps = (4 - 1)%Z
       /\ random_choice rs0 (keys g3) = Ok page0
       /\ walk g3 (85 # 100) rs0 1 steps (zero_table g3, page0)
            (averages, page_end)
       /\ sample_pagerank g3 (85 # 100) 4 rs0 = Ok averages.
Proof.
  assert (Hne : g3 <> []) by discriminate.
  assert (Hg : is_graph g3) by (apply is_graphb_sound; reflexivity).
  assert (Hn : (2 <= 4)%Z) by lia.
  repeat (split; [assumption|]).
  exact (sample_pagerank_walk g3 (85 # 100) 4 rs0 Hne Hg Hn).
Defined.

(** C6, as stated, fails: on the empty graph [iterate_pagerank] raises
    nothing, it returns the empty table. *)
Lemma iterate_pagerank_empty_does_not_fail :
  iterate_pagerank 1 [] (85 # 100) = Returns (Some [])
  /\ ~ raises (iterate_pagerank 1 [] (85 # 100)).
Proof.
  split; [reflexivity|]. intros [e H]. discriminate H.
Qed.

(** C6, amended.  On the empty graph [sample_pagerank] fails at its first
    draw with the [IndexError] that [random.choice] raises on an empty list,
    before any division, and [iterate_pagerank] returns the empty table
    without raising. *)
Theorem empty_corpus_behaviour (d : Q) (n : Z) (rs : random_source)
  (fuel : nat) :
  sample_pagerank [] d n rs = Err IndexError
  /\ iterate_pagerank (S fuel) [] d = Returns (Some []).
Proof. split; reflexivity. Qed.

(** C7, as stated, fails: with [n = 0] on [{"A": set(), "B": {"A"}}] the
    sampler raises nothing and returns the table of zeros. *)
Lemma sample_pagerank_zero_samples_does_not_fail :
  sample_pagerank g2 (85 # 100) 0 rs0 = Ok [("A", 0); ("B", 0)]
  /\ ~ fails (sample_pagerank g2 (85 # 100) 0 rs0).
Proof.
  split; [reflexivity|]. intros [e H]. discriminate H.
Qed.

(** C7, amended.  For a non-empty graph and any damping factor,
    [sample_pagerank] with [n < 1] raises nothing: it returns the table
    that gives rank zero to every page. *)
Theorem sample_pagerank_nonpositive_count (corpus : corpus_t) (d : Q) (n : Z)
  (rs : random_source) :
  corpus <> [] -> is_dict corpus -> (n < 1)%Z ->
  sample_pagerank corpus d n rs = Ok (zero_table corpus).
Proof.
  intros Hne Hnd Hn. apply sample_pagerank_no_steps; try assumption. lia.
Qed.

Lemma sample_pagerank_nonpositive_count_witness :
  g2 <> [] /\ is_dict g2 /\ (-3 < 1)%Z
  /\ sample_pagerank g2 (85 # 100) (-3) rs0 = Ok (zero_table g2).
Proof.
  assert (Hne : g2 <> []) by discriminate.
  assert (Hnd : is_dict g2) by (apply nodupb_sound; reflexivity).
  assert (Hn : (-3 < 1)%Z) by lia.
  repeat (split; [assumption|]).
  exact (sample_pagerank_nonpositive_count g2 (85 # 100) (-3) rs0 Hne Hnd Hn).
Defined.

(** C8.  For a page of the graph and any damping factor, the distribution
    that [transition_model] returns has the keys of the graph, in the order
    of the graph. *)
Theorem transition_model_keys (corpus : corpus_t) (page : string) (d : Q) :
  is_dict corpus -> In page (keys corpus) ->
  exists dist,
    transition_model corpus page d = Ok dist /\ keys dist = keys corpus.
Proof.
  intros Hnd Hpage.
  destruct (dict_get_In corpus page Hpage) as [links [Hget _]].
  exists (map (fun k => (k, transition_value corpus links d k)) (keys corpus)).
  split; [now apply transition_model_eq | apply keys_map_keys].
Qed.

Lemma transition_model_keys_witness :
  is_dict g3 /\ In "C" (keys g3)
  /\ exists dist,
       transition_model g3 "C" (85 # 100) = Ok dist /\ keys dist = keys g3.
Proof.
  assert (Hnd : is_dict g3) by (apply nodupb_sound; reflexivity).
  assert (Hin : In "C" (keys g3)) by (simpl; auto).
  repeat (split; [assumption|]).
  exact (transition_model_keys g3 "C" (85 # 100) Hnd Hin).
Defined.

(** C9.  One update pass keeps the total rank: for a non-empty graph and a
    table over its pages whose ranks sum to one, the pass succeeds and the
    new ranks, which it stores in [pagerank], sum to one. *)
Theorem update_pass_preserves_mass (corpus : corpus_t) (d : Q)
  (pagerank : table) :
  corpus <> [] -> is_graph corpus ->
  keys pagerank = keys corpus ->
  sumQ (values pagerank) == 1 ->
  exists change newrank,
    new_ranks corpus d pagerank = Ok newrank
    /\ update_pass corpus d pagerank = Ok (change, newrank)
    /\ sumQ (values newrank) == 1.
Proof.
  intros Hne [Hc Hcl] Hkeys Hsum. pose proof Hc as [Hnd _].
  exists (changed (new_rank corpus d pagerank) pagerank),
    (map (fun kv => (fst kv, new_rank corpus d pagerank (fst kv))) pagerank).
  split; [now apply new_ranks_eq|]. split; [now apply update_pass_eq|].
  rewrite values_map_fst, <- (map_map fst (new_rank corpus d pagerank)).
  fold (keys pagerank). rewrite Hkeys.
  rewrite (new_rank_total corpus d pagerank Hne Hc Hcl Hkeys), Hsum. ring.
Qed.

Lemma update_pass_preserves_mass_witness :
  g3 <> [] /\ is_graph g3
  /\ keys (uniform_table g3) = keys g3
  /\ sumQ (values (uniform_table g3)) == 1
  /\ exists change newrank,
       new_ranks g3 (85 # 100) (uniform_table g3) = Ok newrank
       /\ update_pass g3 (85 # 100) (uniform_table g3) = Ok (change, newrank)
       /\ sumQ (values newrank) == 1.
Proof.
  assert (Hne : g3 <> []) by discriminate.
  assert (Hg : is_graph g3) by (apply is_graphb_sound; reflexivity).
  assert (Hk : keys (uniform_table g3) = keys g3) by reflexivity.
  assert (Hs : sumQ (values (uniform_table g3)) == 1) by reflexivity.
  repeat (split; [assumption|]).
  exact (update_pass_preserves_mass g3 (85 # 100) (uniform_table g3)
           Hne Hg Hk Hs).
Defined.

(** C10.  For a non-empty graph, [n >= 2] and any realization of the
    draws, the table [sample_pagerank] returns sums to one: the first turn
    replaces the table of zeros by the distribution of the first page, which
    sums to one, and every later turn keeps the sum. *)
Theorem sample_pagerank_sums_to_one (corpus : corpus_t) (d : Q) (n : Z)
  (rs : random_source) :
  corpus <> [] -> is_graph corpus -> (2 <= n)%Z ->
  (exists averages,
     sample_pagerank corpus d n rs = Ok averages
     /\ sumQ (values averages) == 1)
  /\ (forall page, In page (keys corpus) ->
        exists st' dist,
          sample_step corpus d rs 1 (zero_table corpus, page) = Ok st'
          /\ transition_model corpus page d = Ok dist
          /\ sumQ (values dist) == 1
          /\ sumQ (values (fst st')) == 1
          /\ forall node v, dict_get dist node = Ok v ->
               exists a, dict_get (fst st') node = Ok a /\ a == v)
  /\ (forall i averages page,
        (1 < i)%Z -> keys averages = keys corpus -> In page (keys corpus) ->
        sumQ (values averages) == 1 ->
        exists st',
          sample_step corpus d rs i (averages, page) = Ok st'
          /\ sumQ (values (fst st')) == 1).
Proof.
  intros Hne Hg Hn. split; [|split].
  - destruct (sample_pagerank_run corpus d n rs Hne Hg)
      as [page0 [averages [page_end [_ [_ [Hrun [_ Hsum]]]]]]].
    exists averages. split; [assumption | now apply Hsum].
  - intros page Hpage. now apply first_step_distribution.
  - intros i averages page Hi Hkeys Hpage Hsum. destruct Hg as [Hc Hcl].
    destruct (sample_step_ok corpus d rs i (averages, page) Hc Hcl)
      as [st' [Hstep [_ [Hs _]]]].
    + lia.
    + split; [assumption|]. split; [assumption | now right].
    + exists st'. now split.
Qed.

Lemma sample_pagerank_sums_to_one_witness :
  g3 <> [] /\ is_graph g3 /\ (2 <= 5)%Z
  /\ exists averages,
       sample_pagerank g3 (85 # 100) 5 rs0 = Ok averages
       /\ sumQ (values averages) == 1.
Proof.
  assert (Hne : g3 <> []) by discriminate.
  assert (Hg : is_graph g3) by (apply is_graphb_sound; reflexivity).
  assert (Hn : (2 <= 5)%Z) by lia.
  repeat (split; [assumption|]).
  exact (proj1 (sample_pagerank_sums_to_one g3 (85 # 100) 5 rs0 Hne Hg Hn)).
Defined.

(** * More facts about dictionaries *)

Lemma dict_get_notin {V : Type} (d : dict V) (k : string) :
  ~ In k (keys d) -> dict_get d k = Err KeyError.
Proof.
  induction d as [|[k' v'] d IH]; simpl; intros H.
  - reflexivity.
  - destruct (String.eqb_spec k k') as [->|Hne].
    + exfalso. apply H. now left.
    + apply IH. intros Hin. apply H. now right.
Qed.

Lemma dict_get_Ok_keys {V : Type} (d : dict V) (k : string) (v : V) :
  dict_get d k = Ok v -> In k (keys d).
Proof.
  intros H. apply dict_get_Ok_In in H. now apply (in_map fst) in H.
Qed.

Lemma In_dict_get {V : Type} (d : dict V) (k : string) (v : V) :
  is_dict d -> In (k, v) d -> dict_get d k = Ok v.
Proof.
  unfold is_dict. induction d as [|[k' v'] d IH]; simpl; intros Hnd Hin.
  - contradiction.
  - inversion Hnd as [|? ? Hk Hnd']; subst.
    destruct Hin as [Heq|Hin].
    + inversion Heq; subst. now rewrite String.eqb_refl.
    + destruct (String.eqb_spec k k') as [->|_].
      * exfalso. apply Hk. now apply (in_map fst) in Hin.
      * now apply IH.
Qed.

Lemma dict_get_set_same {V : Type} (d : dict V) (k : string) (v : V) :
  dict_get (dict_set d k v) k = Ok v.
Proof.
  induction d as [|[k' v'] d IH]; simpl.
  - now rewrite String.eqb_refl.
  - destruct (String.eqb_spec k k') as [->|Hne]; simpl.
    + now rewrite String.eqb_refl.
    + destruct (String.eqb_spec k k'); [contradiction | assumption].
Qed.

Lemma dict_get_set_other {V : Type} (d : dict V) (k k' : string) (v : V) :
  k' <> k -> dict_get (dict_set d k v) k' = dict_get d k'.
Proof.
  intros Hne. induction d as [|[k0 v0] d IH]; simpl.
  - destruct (String.eqb_spec k' k); [contradiction | reflexivity].
  - destruct (String.eqb_spec k k0) as [->|Hk]; simpl.
    + destruct (String.eqb_spec k' k0); [contradiction | reflexivity].
    + destruct (String.eqb_spec k' k0); [reflexivity | assumption].
Qed.

Lemma In_keys_dict_set {V : Type} (d : dict V) (k k' : string) (v : V) :
  In k' (keys (dict_set d k v)) <-> k' = k \/ In k' (keys d).
Proof.
  induction d as [|[k0 v0] d IH]; simpl.
  - intuition.
  - destruct (String.eqb_spec k k0) as [->|Hk]; simpl.
    + intuition.
    + rewrite IH. intuition.
Qed.

Lemma is_dict_dict_set {V : Type} (d : dict V) (k : string) (v : V) :
  is_dict d -> is_dict (dict_set d k v).
Proof.
  unfold is_dict. induction d as [|[k0 v0] d IH]; simpl; intros Hnd.
  - constructor; [intros [] | constructor].
  - inversion Hnd as [|? ? Hk0 Hnd']; subst.
    destruct (String.eqb_spec k k0) as [->|Hk]; simpl.
    + now constructor.
    + constructor; [|now apply IH].
      intros Hin. apply In_keys_dict_set in Hin as [Heq|Hin]; congruence.
Qed.

Lemma dict_get_map_values_inv {V : Type} (g : string -> V -> V) (d : dict V)
  (k : string) (w : V) :
  dict_get (map (fun kv => (fst kv, g (fst kv) (snd kv))) d) k = Ok w ->
  exists v, dict_get d k = Ok v /\ w = g k v.
Proof.
  induction d as [|[k' v'] d IH]; simpl; intros H.
  - discriminate.
  - destruct (String.eqb_spec k k') as [->|Hne].
    + inversion H. now exists v'.
    + now apply IH.
Qed.

(** As [for_each_update], for a body that also looks at the keys of the
    dictionary it updates. *)
Lemma for_each_update_keys {V : Type} (ks : list string)
  (g : string -> V -> V)
  (body : string -> dict V -> result (dict V)) (suf : dict V) :
  forall pre : dict V,
    is_dict (pre ++ suf) ->
    keys (pre ++ suf) = ks ->
    (forall acc k v, keys acc = ks -> In k (keys suf) ->
                     dict_get acc k = Ok v ->
                     body k acc = Ok (dict_set acc k (g k v))) ->
    for_each (keys suf) body (pre ++ suf)
    = Ok (pre ++ map (fun kv => (fst kv, g (fst kv) (snd kv))) suf).
Proof.
  unfold is_dict.
  induction suf as [|[k v] suf IH]; intros pre Hnd Hks Hbody; simpl.
  - reflexivity.
  - pose proof Hnd as Hnd0. rewrite keys_app in Hnd. simpl in Hnd.
    assert (Hk : ~ In k (keys pre)).
    { apply NoDup_remove_2 in Hnd. intros H. apply Hnd.
      apply in_app_iff. now left. }
    rewrite (Hbody _ k v).
    + simpl. rewrite dict_set_app_notin by assumption. simpl.
      rewrite String.eqb_refl.
      change (pre ++ (k, g k v) :: suf) with (pre ++ [(k, g k v)] ++ suf).
      rewrite app_assoc. rewrite IH.
      * now rewrite <- app_assoc.
      * rewrite !keys_app. simpl. rewrite <- app_assoc. exact Hnd.
      * rewrite <- Hks. rewrite !keys_app. simpl.
        now rewrite <- app_assoc.
      * intros acc k' v' Hacc Hin. apply Hbody; [assumption | now right].
    + assumption.
    + now left.
    + rewrite dict_get_app_notin by assumption.
      simpl. now rewrite String.eqb_refl.
Qed.

(** * crawl *)

Lemma In_py_set (l : list string) (x : string) : In x (py_set l) <-> In x l.
Proof. unfold py_set. apply nodup_In. Qed.

Lemma NoDup_py_set (l : list string) : NoDup (py_set l).
Proof. unfold py_set. apply NoDup_nodup. Qed.

Lemma In_raw_links (read : string -> string)
  (findall : string -> list string) (filename l : string) :
  In l (raw_links read findall filename)
  <-> In l (findall (read filename)) /\ l <> filename.
Proof.
  unfold raw_links, set_diff. rewrite filter_In, In_py_set.
  simpl. rewrite orb_false_r.
  destruct (String.eqb_spec l filename) as [->|Hne]; simpl.
  - split; [intros [_ H]; discriminate | intros [_ H]; congruence].
  - split; intros [H _]; auto.
Qed.

Lemma dict_mem_In {V : Type} (d : dict V) (k : string) :
  dict_mem d k = true <-> In k (keys d).
Proof. unfold dict_mem. apply set_mem_In. Qed.

(** The first loop never fails; it keeps the dictionary a dictionary, adds
    the [.html] entries of the listing as keys and stores [raw_links]. *)
Lemma crawl_scan_loop (read : string -> string)
  (findall : string -> list string) (listing : list string) :
  forall acc : corpus_t,
  exists pages,
    for_each listing
      (fun filename pages =>
         if negb (endswith filename ".html") then Ok pages
         else
           let contents := read filename in
           let links := findall contents in
           Ok (dict_set pages filename (set_diff (py_set links) [filename])))
      acc = Ok pages
    /\ (is_dict acc -> is_dict pages)
    /\ (forall k, In k (keys pages)
                  <-> In k (keys acc)
                      \/ (In k listing /\ endswith k ".html" = true))
    /\ (forall k v, dict_get pages k = Ok v ->
                    dict_get acc k = Ok v \/ v = raw_links read findall k).
Proof.
  induction listing as [|f listing IH]; intros acc.
  - exists acc. split; [reflexivity|]. split; [auto|]. split.
    + intros k. simpl. intuition.
    + intros k v H. now left.
  - cbn [for_each]. destruct (endswith f ".html") eqn:Ef; cbn [negb bind].
    + destruct (IH (dict_set acc f (set_diff (py_set (findall (read f))) [f])))
        as [pages [Hrun [Hd [Hk Hv]]]].
      exists pages. split; [assumption|]. split; [|split].
      * intros Hacc. apply Hd. now apply is_dict_dict_set.
      * intros k. rewrite Hk, In_keys_dict_set. simpl. split.
        -- intros [[->|H]|[H1 H2]]; auto.
        -- intros [H|[[->|H1] H2]]; auto.
      * intros k v H. destruct (Hv k v H) as [H'|H']; [|now right].
        destruct (String.eqb_spec k f) as [->|Hne].
        -- rewrite dict_get_set_same in H'. inversion H'. now right.
        -- rewrite dict_get_set_other in H' by assumption. now left.
    + destruct (IH acc) as [pages [Hrun [Hd [Hk Hv]]]].
      exists pages. split; [assumption|]. split; [assumption|]. split.
      * intros k. rewrite Hk. simpl. split.
        -- intros [H|[H1 H2]]; auto.
        -- intros [H|[[->|H1] H2]]; auto. congruence.
      * assumption.
Qed.

Lemma crawl_filter_eq (pages : corpus_t) :
  is_dict pages ->
  crawl_filter pages
  = Ok (map (fun kv =>
               (fst kv, py_set (filter (dict_mem pages) (snd kv)))) pages).
Proof.
  intros Hnd. unfold crawl_filter.
  pose proof (for_each_update_keys (keys pages)
                (fun _ links => py_set (filter (dict_mem pages) links))
                (fun filename pages =>
                   links <- dict_get pages filename ;;
                   Ok (dict_set pages filename
                         (py_set (filter (dict_mem pages) links))))
                pages []) as Hloop.
  simpl app in Hloop. apply Hloop; try easy.
  intros acc k v Hacc _ Hget. rewrite Hget. cbn [bind].
  unfold dict_mem. now rewrite Hacc.
Qed.

(** [crawl] in closed form. *)
Lemma crawl_eq (listing : list string) (read : string -> string)
  (findall : string -> list string) :
  exists scanned,
    crawl_scan listing read findall = Ok scanned
    /\ is_dict scanned
    /\ (forall k, In k (keys scanned)
                  <-> In k listing /\ endswith k ".html" = true)
    /\ (forall k v, dict_get scanned k = Ok v ->
                    v = raw_links read findall k)
    /\ crawl listing read findall
       = Ok (map (fun kv =>
                    (fst kv, py_set (filter (dict_mem scanned) (snd kv))))
               scanned).
Proof.
  destruct (crawl_scan_loop read findall listing []) as [scanned [Hrun [Hd [Hk Hv]]]].
  assert (Hnd : is_dict scanned) by (apply Hd; constructor).
  exists scanned. split; [exact Hrun|]. split; [assumption|]. split; [|split].
  - intros k. rewrite Hk. simpl. intuition.
  - intros k v H. destruct (Hv k v H) as [H'|H']; [discriminate | assumption].
  - unfold crawl. unfold crawl_scan in Hrun |- *. rewrite Hrun. cbn [bind].
    now apply crawl_filter_eq.
Qed.

(** * Bounds on ranks *)

Lemma Qdiv_nonneg (x y : Q) : 0 <= x -> 0 <= y -> 0 <= x / y.
Proof.
  intros Hx Hy. unfold Qdiv. apply Qmult_le_0_compat; [assumption|].
  now apply Qinv_le_0_compat.
Qed.

Lemma len_nonneg {A : Type} (l : list A) : 0 <= len l.
Proof. unfold len, Qle. simpl. lia. Qed.

Lemma inject_Z_nonneg (z : Z) : (0 <= z)%Z -> 0 <= inject_Z z.
Proof. intros H. unfold Qle. simpl. lia. Qed.

Lemma Qplus_nonneg (x y : Q) : 0 <= x -> 0 <= y -> 0 <= x + y.
Proof.
  intros Hx Hy. rewrite <- (Qplus_0_l 0). now apply Qplus_le_compat.
Qed.

Lemma sumQ_map_nonneg {A : Type} (f : A -> Q) (l : list A) :
  (forall x, In x l -> 0 <= f x) -> 0 <= sumQ (map f l).
Proof.
  induction l as [|x l IH]; simpl; intros H.
  - apply Qle_refl.
  - apply Qplus_nonneg; [apply H; now left|].
    apply IH. intros y Hy. apply H. now right.
Qed.

(** A non-negative term is at most the sum of the non-negative terms. *)
Lemma In_le_sumQ (l : list Q) (x : Q) :
  Forall (fun v => 0 <= v) l -> In x l -> x <= sumQ l.
Proof.
  induction 1 as [|y l Hy Hl IH]; simpl; intros Hin.
  - contradiction.
  - assert (Hs : 0 <= sumQ l).
    { rewrite <- (map_id l). apply sumQ_map_nonneg.
      intros z Hz. rewrite Forall_forall in Hl. now apply Hl. }
    destruct Hin as [->|Hin].
    + rewrite <- (Qplus_0_r x) at 1. apply Qplus_le_compat; [apply Qle_refl | assumption].
    + rewrite <- (Qplus_0_l x). apply Qplus_le_compat; [assumption | now apply IH].
Qed.

Lemma unit_interval_of_sum (l : list Q) :
  Forall (fun v => 0 <= v) l -> sumQ l == 1 ->
  Forall (fun v => 0 <= v /\ v <= 1) l.
Proof.
  intros Hl Hs. apply Forall_forall. intros x Hx. split.
  - rewrite Forall_forall in Hl. now apply Hl.
  - rewrite <- Hs. now apply In_le_sumQ.
Qed.

Lemma rank_of_nonneg (t : table) (k : string) :
  Forall (fun v => 0 <= v) (values t) -> 0 <= rank_of t k.
Proof.
  intros H. unfold rank_of. destruct (dict_get t k) as [v|e] eqn:E.
  - apply dict_get_Ok_In in E. apply (in_map snd) in E.
    rewrite Forall_forall in H. now apply H.
  - apply Qle_refl.
Qed.

Lemma share_nonneg (corpus : corpus_t) (pagerank : table)
  (page newpage : string) :
  Forall (fun v => 0 <= v) (values pagerank) ->
  0 <= share corpus pagerank page newpage.
Proof.
  intros H. unfold share.
  pose proof (rank_of_nonneg pagerank newpage H) as Hr.
  apply Qplus_nonneg.
  - destruct (set_mem page (links_of corpus newpage)); [|apply Qle_refl].
    apply Qdiv_nonneg; [assumption | apply len_nonneg].
  - destruct (negb (truthy (links_of corpus newpage))); [|apply Qle_refl].
    apply Qdiv_nonneg; [assumption | apply len_nonneg].
Qed.

(** Every new rank is at least the random-jump term [(1 - d) / N]. *)
Lemma new_rank_lower_bound (corpus : corpus_t) (d : Q) (pagerank : table)
  (page : string) :
  0 <= d -> Forall (fun v => 0 <= v) (values pagerank) ->
  (1 - d) / len corpus <= new_rank corpus d pagerank page.
Proof.
  intros Hd H. unfold new_rank.
  rewrite <- (Qplus_0_r ((1 - d) / len corpus)) at 1.
  apply Qplus_le_compat; [apply Qle_refl|].
  apply Qmult_le_0_compat; [assumption|].
  rewrite fold_left_add_share. rewrite Qplus_0_l.
  apply sumQ_map_nonneg. intros q _. now apply share_nonneg.
Qed.

Lemma jump_term_nonneg (corpus : corpus_t) (d : Q) :
  d <= 1 -> 0 <= (1 - d) / len corpus.
Proof.
  intros Hd. apply Qdiv_nonneg; [|apply len_nonneg].
  unfold Qminus. rewrite <- (Qplus_opp_r d).
  apply Qplus_le_compat; [assumption | apply Qle_refl].
Qed.

Lemma running_average_nonneg (i : Z) (old v : Q) :
  (1 <= i)%Z -> 0 <= old -> 0 <= v -> 0 <= running_average i old v.
Proof.
  intros Hi Ho Hv. unfold running_average.
  apply Qdiv_nonneg; [|apply inject_Z_nonneg; lia].
  apply Qplus_nonneg; [|assumption].
  apply Qmult_le_0_compat; [apply inject_Z_nonneg; lia | assumption].
Qed.

(** One turn of the sampling loop keeps the averages non-negative. *)
Lemma sample_step_nonneg (corpus : corpus_t) (d : Q) (rs : random_source)
  (i : Z) (st st' : table * string) :
  is_corpus corpus -> (1 <= i)%Z -> sample_inv corpus i st ->
  0 <= d -> d <= 1 ->
  Forall (fun v => 0 <= v) (values (fst st)) ->
  sample_step corpus d rs i st = Ok st' ->
  Forall (fun v => 0 <= v) (values (fst st')).
Proof.
  intros [Hnd _] Hi [Hkeys [Hpage _]] H0 H1 Hpos Hstep.
  destruct st as [pagerank page]. simpl in Hkeys, Hpage, Hpos.
  destruct (dict_get_In corpus page Hpage) as [links [Hget _]].
  pose proof (keys_nonempty corpus page Hpage) as Hne.
  rewrite (sample_step_eq corpus d rs i pagerank page links Hnd Hkeys Hget Hi)
    in Hstep.
  cbv zeta in Hstep.
  destruct (random_choices _ _ _) as [page'|e] in Hstep; [|discriminate].
  cbn [bind] in Hstep. inversion Hstep; subst st'. cbn [fst].
  rewrite values_map_fst. apply Forall_forall.
  intros v Hv. apply in_map_iff in Hv as [[k old] [<- Hin]]. cbn [fst snd].
  apply running_average_nonneg; [assumption | |].
  - rewrite Forall_forall in Hpos. apply Hpos.
    now apply (in_map snd) in Hin.
  - now apply transition_value_nonneg.
Qed.

Lemma sample_loop_nonneg (corpus : corpus_t) (d : Q) (rs : random_source)
  (count : nat) :
  is_corpus corpus -> links_closed corpus -> 0 <= d -> d <= 1 ->
  forall i st st',
    (1 <= i)%Z -> sample_inv corpus i st ->
    Forall (fun v => 0 <= v) (values (fst st)) ->
    for_each (range_from i count) (sample_step corpus d rs) st = Ok st' ->
    Forall (fun v => 0 <= v) (values (fst st')).
Proof.
  intros Hc Hcl H0 H1.
  induction count as [|count IH]; intros i st st' Hi Hinv Hpos Hrun.
  - simpl in Hrun. inversion Hrun. now subst.
  - destruct (sample_step_ok corpus d rs i st Hc Hcl Hi Hinv)
      as [st1 [Hstep [Hinv1 _]]].
    simpl in Hrun. rewrite Hstep in Hrun. cbn [bind] in Hrun.
    apply (IH (i + 1)%Z st1 st'); try assumption; [lia|].
    now apply (sample_step_nonneg corpus d rs i st st1).
Qed.

(** * The convergence test *)

Lemma Qabs_small_of_unit (b : Q) :
  0 <= b -> b <= 1 -> Qabs (rel_tol * b) <= 1 # 1000.
Proof.
  intros H0 H1. rewrite Qabs_pos.
  - apply Qle_trans with (rel_tol * 1).
    + apply Qmult_le_l; [reflexivity | assumption].
    + discriminate.
  - apply Qmult_le_0_compat; [discriminate | assumption].
Qed.

(** On ranks between 0 and 1 the relative tolerance of [math.isclose] never
    decides: the test is the absolute one. *)
Lemma isclose_unit (a b : Q) :
  0 <= a -> a <= 1 -> 0 <= b -> b <= 1 ->
  isclose a b (1 # 1000) = true <-> Qabs (a - b) <= 1 # 1000.
Proof.
  intros Ha0 Ha1 Hb0 Hb1. unfold isclose.
  rewrite (Qabs_Qminus a b).
  destruct (Qeq_bool a b) eqn:E.
  - apply Qeq_bool_iff in E. split; [intros _ | reflexivity].
    assert (Hz : b - a == 0) by (rewrite E; ring).
    rewrite Hz. discriminate.
  - split.
    + intros H. apply orb_prop in H as [H|H].
      * apply orb_prop in H as [H|H]; apply Qle_bool_iff in H.
        -- eapply Qle_trans; [exact H | now apply Qabs_small_of_unit].
        -- eapply Qle_trans; [exact H | now apply Qabs_small_of_unit].
      * now apply Qle_bool_iff in H.
    + intros H. apply Qle_bool_iff in H. rewrite H. now rewrite !orb_true_r.
Qed.

(** * Further properties of the estimators *)

Lemma uniform_table_sum (corpus : corpus_t) :
  corpus <> [] -> sumQ (values (uniform_table corpus)) == 1.
Proof.
  intros Hne. pose proof (len_nonzero corpus Hne) as HN.
  unfold uniform_table. rewrite values_map_keys, sumQ_map_const, len_keys.
  now field.
Qed.

Lemma uniform_table_nonneg (corpus : corpus_t) :
  Forall (fun v => 0 <= v) (values (uniform_table corpus)).
Proof.
  unfold uniform_table. rewrite values_map_keys. apply Forall_forall.
  intros v Hv. apply in_map_iff in Hv as [k [<- _]].
  apply Qdiv_nonneg; [discriminate | apply len_nonneg].
Qed.

Lemma pass_values (f : string -> Q) (pagerank : table) :
  values (map (fun kv => (fst kv, f (fst kv))) pagerank) = map f (keys pagerank).
Proof. unfold values, keys. now rewrite !map_map. Qed.

Lemma pass_sum (corpus : corpus_t) (d : Q) (pagerank : table) :
  corpus <> [] -> is_graph corpus -> keys pagerank = keys corpus ->
  sumQ (values pagerank) == 1 ->
  sumQ (map (new_rank corpus d pagerank) (keys pagerank)) == 1.
Proof.
  intros Hne [Hc Hcl] Hkeys Hsum. rewrite Hkeys.
  rewrite (new_rank_total corpus d pagerank Hne Hc Hcl Hkeys), Hsum. ring.
Qed.

(** The ranks of a pass lie between the random-jump term and one. *)
Lemma pass_bounds (corpus : corpus_t) (d : Q) (pagerank : table) :
  corpus <> [] -> is_graph corpus -> keys pagerank = keys corpus ->
  0 <= d -> d <= 1 ->
  Forall (fun v => 0 <= v) (values pagerank) ->
  sumQ (values pagerank) == 1 ->
  Forall (fun v => (1 - d) / len corpus <= v /\ v <= 1)
    (map (new_rank corpus d pagerank) (keys pagerank)).
Proof.
  intros Hne Hg Hkeys H0 H1 Hpos Hsum.
  assert (Hlow : Forall (fun v => (1 - d) / len corpus <= v)
                   (map (new_rank corpus d pagerank) (keys pagerank))).
  { apply Forall_forall. intros v Hv. apply in_map_iff in Hv as [k [<- _]].
    now apply new_rank_lower_bound. }
  assert (Hnn : Forall (fun v => 0 <= v)
                  (map (new_rank corpus d pagerank) (keys pagerank))).
  { eapply Forall_impl; [|exact Hlow]. intros v Hv. cbv beta in Hv.
    eapply Qle_trans; [now apply (jump_term_nonneg corpus d) | exact Hv]. }
  pose proof (unit_interval_of_sum _ Hnn
                (pass_sum corpus d pagerank Hne Hg Hkeys Hsum)) as Hunit.
  rewrite Forall_forall in Hlow, Hunit |- *.
  intros v Hv. split; [now apply Hlow | now apply Hunit].
Qed.

(** X1.  [transition_model] raises [KeyError] when the page is not a key
    of the corpus; in particular on the empty corpus. *)
Theorem transition_model_missing_page (corpus : corpus_t) (page : string)
  (d : Q) :
  ~ In page (keys corpus) -> transition_model corpus page d = Err KeyError.
Proof.
  intros H. unfold transition_model. now rewrite dict_get_notin.
Qed.

Lemma transition_model_missing_page_witness :
  ~ In "D" (keys g3) /\ transition_model g3 "D" DAMPING = Err KeyError.
Proof.
  assert (H : ~ In "D" (keys g3)).
  { apply set_mem_not_In. reflexivity. }
  split; [assumption|].
  exact (transition_model_missing_page g3 "D" DAMPING H).
Defined.

(** X2.  From a page without links the distribution is uniform: every page
    of the corpus gets [1 / N], whatever the damping factor. *)
Theorem transition_model_sink_uniform (corpus : corpus_t) (page : string)
  (d : Q) :
  is_dict corpus -> dict_get corpus page = Ok [] ->
  transition_model corpus page d = Ok (uniform_table corpus).
Proof.
  intros Hnd Hget.
  now rewrite (transition_model_eq corpus page [] d Hnd Hget).
Qed.

Lemma transition_model_sink_uniform_witness :
  is_dict g3 /\ dict_get g3 "C" = Ok []
  /\ transition_model g3 "C" DAMPING = Ok (uniform_table g3).
Proof.
  assert (Hnd : is_dict g3) by (apply nodupb_sound; reflexivity).
  assert (Hget : dict_get g3 "C" = Ok []) by reflexivity.
  repeat (split; [assumption|]).
  exact (transition_model_sink_uniform g3 "C" DAMPING Hnd Hget).
Defined.

(** X3.  From a page with links, a page of the corpus that is linked gets
    [(1 - d) / N + d / L], with [L] the number of links, and a page that is
    not linked gets [(1 - d) / N]. *)
Theorem transition_model_linked_values (corpus : corpus_t) (page : string)
  (links : list string) (d : Q) :
  is_dict corpus -> dict_get corpus page = Ok links -> links <> [] ->
  exists dist,
    transition_model corpus page d = Ok dist
    /\ forall k, In k (keys corpus) ->
         (In k links ->
          dict_get dist k
          = Ok ((1 - d) / len corpus + d / len links))
         /\ (~ In k links ->
             dict_get dist k = Ok ((1 - d) / len corpus)).
Proof.
  intros Hnd Hget Hne.
  exists (map (fun k => (k, transition_value corpus links d k)) (keys corpus)).
  split; [now apply transition_model_eq|].
  intros k Hk. rewrite dict_get_map by assumption.
  unfold transition_value.
  destruct links as [|l links]; [congruence|]. cbn [truthy].
  split; intros H.
  - apply set_mem_In in H. now rewrite H.
  - apply set_mem_not_In in H. now rewrite H.
Qed.

Lemma transition_model_linked_values_witness :
  is_dict g3 /\ dict_get g3 "A" = Ok ["B"; "C"] /\ ["B"; "C"] <> []
  /\ exists dist,
       transition_model g3 "A" DAMPING = Ok dist
       /\ forall k, In k (keys g3) ->
            (In k ["B"; "C"] ->
             dict_get dist k
             = Ok ((1 - DAMPING) / len g3 + DAMPING / len ["B"; "C"]))
            /\ (~ In k ["B"; "C"] ->
                dict_get dist k = Ok ((1 - DAMPING) / len g3)).
Proof.
  assert (Hnd : is_dict g3) by (apply nodupb_sound; reflexivity).
  assert (Hget : dict_get g3 "A" = Ok ["B"; "C"]) by reflexivity.
  assert (Hne : ["B"; "C"] <> []) by discriminate.
  repeat (split; [assumption|]).
  exact (transition_model_linked_values g3 "A" ["B"; "C"] DAMPING Hnd Hget Hne).
Defined.



(** X5.  With a damping factor in [[0, 1]] every rank [sample_pagerank]
    returns is between 0 and 1, whatever the sample count and the draws. *)
Theorem sample_pagerank_unit_interval (corpus : corpus_t) (d : Q) (n : Z)
  (rs : random_source) :
  corpus <> [] -> is_graph corpus -> 0 <= d -> d <= 1 ->
  exists ranks,
    sample_pagerank corpus d n rs = Ok ranks
    /\ Forall (fun v => 0 <= v /\ v <= 1) (values ranks).
Proof.
  intros Hne [Hc Hcl] H0 H1. pose proof Hc as [Hnd _].
  destruct (random_choice_In rs (keys corpus)) as [page0 [Hp Hin]].
  { destruct corpus; simpl; congruence. }
  assert (Hinv : sample_inv corpus 1 (zero_table corpus, page0)).
  { split; [|split].
    - unfold zero_table. apply keys_map_keys.
    - assumption.
    - now left. }
  assert (Hzero : Forall (fun v => 0 <= v) (values (zero_table corpus))).
  { unfold zero_table. rewrite values_map_keys. apply Forall_forall.
    intros v Hv. apply in_map_iff in Hv as [k [<- _]]. apply Qle_refl. }
  destruct (sample_loop_ok corpus d rs (Z.to_nat (n - 1)) Hc Hcl 1%Z
              (zero_table corpus, page0) ltac:(lia) Hinv)
    as [[averages page_end] [Hrun [_ [_ Hs]]]].
  pose proof (sample_loop_nonneg corpus d rs (Z.to_nat (n - 1)) Hc Hcl H0 H1
                1%Z (zero_table corpus, page0) (averages, page_end)
                ltac:(lia) Hinv Hzero Hrun) as Hpos.
  cbn [fst] in Hpos, Hs.
  exists averages. split.
  - unfold sample_pagerank.
    rewrite (zero_table_init corpus Hnd). cbn [bind]. rewrite Hp. cbn [bind].
    unfold py_range. unfold table in *. rewrite Hrun. reflexivity.
  - destruct (Z.to_nat (n - 1)) as [|count] eqn:En.
    + simpl in Hrun. inversion Hrun; subst averages.
      unfold zero_table. rewrite values_map_keys. apply Forall_forall.
      intros v Hv. apply in_map_iff in Hv as [k [<- _]].
      split; discriminate.
    + apply unit_interval_of_sum; [assumption|]. apply Hs. discriminate.
Qed.

Lemma sample_pagerank_unit_interval_witness :
  g3 <> [] /\ is_graph g3 /\ 0 <= DAMPING /\ DAMPING <= 1
  /\ exists ranks,
       sample_pagerank g3 DAMPING SAMPLES rs0 = Ok ranks
       /\ Forall (fun v => 0 <= v /\ v <= 1) (values ranks).
Proof.
  assert (Hne : g3 <> []) by discriminate.
  assert (Hg : is_graph g3) by (apply is_graphb_sound; reflexivity).
  assert (H0 : 0 <= DAMPING) by discriminate.
  assert (H1 : DAMPING <= 1) by discriminate.
  repeat (split; [assumption|]).
  exact (sample_pagerank_unit_interval g3 DAMPING SAMPLES rs0 Hne Hg H0 H1).
Defined.

(** X6.  With [n = 2] the sampler takes one turn: the table it returns is,
    value for value, the transition distribution of the page drawn
    first. *)
Theorem sample_pagerank_two_samples (corpus : corpus_t) (d : Q)
  (rs : random_source) :
  corpus <> [] -> is_graph corpus ->
  exists page0 dist ranks,
    random_choice rs (keys corpus) = Ok page0
    /\ transition_model corpus page0 d = Ok dist
    /\ sample_pagerank corpus d 2 rs = Ok ranks
    /\ forall node v, dict_get dist node = Ok v ->
         exists a, dict_get ranks node = Ok a /\ a == v.
Proof.
  intros Hne Hg. pose proof Hg as [[Hnd _] _].
  destruct (random_choice_In rs (keys corpus)) as [page0 [Hp Hin]].
  { destruct corpus; simpl; congruence. }
  destruct (first_step_distribution corpus d rs page0 Hg Hin)
    as [st' [dist [Hstep [Hdist [_ [_ Hval]]]]]].
  exists page0, dist, (fst st').
  split; [assumption|]. split; [assumption|]. split; [|assumption].
  unfold sample_pagerank.
  rewrite (zero_table_init corpus Hnd). cbn [bind]. rewrite Hp. cbn [bind].
  change (py_range 1 2) with [1%Z]. cbn [for_each].
  unfold table in *. rewrite Hstep. reflexivity.
Qed.

Lemma sample_pagerank_two_samples_witness :
  g3 <> [] /\ is_graph g3
  /\ exists page0 dist ranks,
       random_choice rs0 (keys g3) = Ok page0
       /\ transition_model g3 page0 DAMPING = Ok dist
       /\ sample_pagerank g3 DAMPING 2 rs0 = Ok ranks
       /\ forall node v, dict_get dist node = Ok v ->
            exists a, dict_get ranks node = Ok a /\ a == v.
Proof.
  assert (Hne : g3 <> []) by discriminate.
  assert (Hg : is_graph g3) by (apply is_graphb_sound; reflexivity).
  repeat (split; [assumption|]).
  exact (sample_pagerank_two_samples g3 DAMPING rs0 Hne Hg).
Defined.

(** X7.  On a corpus of a single page the sampler gives that page rank
    one, for every [n >= 2]. *)
Theorem sample_pagerank_single_page (a : string) (links : list string)
  (d : Q) (n : Z) (rs : random_source) :
  is_graph [(a, links)] -> (2 <= n)%Z ->
  exists v, sample_pagerank [(a, links)] d n rs = Ok [(a, v)] /\ v == 1.
Proof.
  intros Hg Hn.
  destruct (sample_pagerank_run [(a, links)] d n rs ltac:(discriminate) Hg)
    as [page0 [averages [page_end [_ [_ [Hrun [Hk Hs]]]]]]].
  specialize (Hs Hn).
  destruct averages as [|[a' v] [|kv averages]]; simpl in Hk; try discriminate.
  inversion Hk; subst a'. exists v. split; [assumption|].
  simpl in Hs. rewrite <- Hs. ring.
Qed.

Lemma sample_pagerank_single_page_witness :
  is_graph g1 /\ (2 <= SAMPLES)%Z
  /\ exists v, sample_pagerank g1 DAMPING SAMPLES rs0 = Ok [("A", v)] /\ v == 1.
Proof.
  assert (Hg : is_graph g1) by (apply is_graphb_sound; reflexivity).
  assert (Hn : (2 <= SAMPLES)%Z) by (unfold SAMPLES; lia).
  repeat (split; [assumption|]).
  exact (sample_pagerank_single_page "A" [] DAMPING SAMPLES rs0 Hg Hn).
Defined.

(** X8.  Whatever the corpus, [iterate_pagerank] raises nothing, never
    returns [None] and never takes a second pass: with any fuel for one
    turn of the loop it returns the new ranks of the first pass from the
    uniform table, and their keys are the pages of the corpus. *)
Theorem iterate_pagerank_first_pass (corpus : corpus_t) (d : Q) :
  is_dict corpus ->
  exists ranks,
    (forall fuel, iterate_pagerank (S fuel) corpus d = Returns (Some ranks))
    /\ new_ranks corpus d (uniform_table corpus) = Ok ranks
    /\ keys ranks = keys corpus.
Proof.
  intros Hnd.
  assert (Hk : keys (uniform_table corpus) = keys corpus).
  { unfold uniform_table. apply keys_map_keys. }
  exists (map (fun kv =>
                 (fst kv, new_rank corpus d (uniform_table corpus) (fst kv)))
            (uniform_table corpus)).
  split; [|split].
  - intros fuel. now apply iterate_pagerank_one_pass.
  - now apply new_ranks_eq.
  - now rewrite keys_map_fst.
Qed.

Lemma iterate_pagerank_first_pass_witness :
  is_dict g3
  /\ exists ranks,
       (forall fuel, iterate_pagerank (S fuel) g3 DAMPING = Returns (Some ranks))
       /\ new_ranks g3 DAMPING (uniform_table g3) = Ok ranks
       /\ keys ranks = keys g3.
Proof.
  assert (Hnd : is_dict g3) by (apply nodupb_sound; reflexivity).
  split; [assumption|].
  exact (iterate_pagerank_first_pass g3 DAMPING Hnd).
Defined.

(** X9.  On a non-empty graph the ranks [iterate_pagerank] returns sum to
    one, whatever the damping factor. *)
Theorem iterate_pagerank_sums_to_one (corpus : corpus_t) (d : Q) :
  corpus <> [] -> is_graph corpus ->
  exists ranks,
    (forall fuel, iterate_pagerank (S fuel) corpus d = Returns (Some ranks))
    /\ sumQ (values ranks) == 1.
Proof.
  intros Hne Hg. pose proof Hg as [[Hnd _] _].
  assert (Hk : keys (uniform_table corpus) = keys corpus).
  { unfold uniform_table. apply keys_map_keys. }
  eexists. split.
  - intros fuel. now apply iterate_pagerank_one_pass.
  - rewrite pass_values.
    apply pass_sum; try assumption. now apply uniform_table_sum.
Qed.

Lemma iterate_pagerank_sums_to_one_witness :
  g3 <> [] /\ is_graph g3
  /\ exists ranks,
       (forall fuel, iterate_pagerank (S fuel) g3 DAMPING = Returns (Some ranks))
       /\ sumQ (values ranks) == 1.
Proof.
  assert (Hne : g3 <> []) by discriminate.
  assert (Hg : is_graph g3) by (apply is_graphb_sound; reflexivity).
  repeat (split; [assumption|]).
  exact (iterate_pagerank_sums_to_one g3 DAMPING Hne Hg).
Defined.

(** X10.  With a damping factor in [[0, 1]] every rank [iterate_pagerank]
    returns on a non-empty graph is at least the random-jump term
    [(1 - d) / N] and at most one. *)
Theorem iterate_pagerank_rank_bounds (corpus : corpus_t) (d : Q) :
  corpus <> [] -> is_graph corpus -> 0 <= d -> d <= 1 ->
  exists ranks,
    (forall fuel, iterate_pagerank (S fuel) corpus d = Returns (Some ranks))
    /\ Forall (fun v => (1 - d) / len corpus <= v /\ v <= 1) (values ranks).
Proof.
  intros Hne Hg H0 H1. pose proof Hg as [[Hnd _] _].
  assert (Hk : keys (uniform_table corpus) = keys corpus).
  { unfold uniform_table. apply keys_map_keys. }
  eexists. split.
  - intros fuel. now apply iterate_pagerank_one_pass.
  - rewrite pass_values.
    apply pass_bounds; try assumption.
    + apply uniform_table_nonneg.
    + now apply uniform_table_sum.
Qed.

Lemma iterate_pagerank_rank_bounds_witness :
  g3 <> [] /\ is_graph g3 /\ 0 <= DAMPING /\ DAMPING <= 1
  /\ exists ranks,
       (forall fuel, iterate_pagerank (S fuel) g3 DAMPING = Returns (Some ranks))
       /\ Forall (fun v => (1 - DAMPING) / len g3 <= v /\ v <= 1)
            (values ranks).
Proof.
  assert (Hne : g3 <> []) by discriminate.
  assert (Hg : is_graph g3) by (apply is_graphb_sound; reflexivity).
  assert (H0 : 0 <= DAMPING) by discriminate.
  assert (H1 : DAMPING <= 1) by discriminate.
  repeat (split; [assumption|]).
  exact (iterate_pagerank_rank_bounds g3 DAMPING Hne Hg H0 H1).
Defined.

(** X11.  On a corpus of a single page [iterate_pagerank] gives that page
    rank one. *)
Theorem iterate_pagerank_single_page (a : string) (links : list string)
  (d : Q) :
  is_graph [(a, links)] ->
  exists v,
    (forall fuel,
       iterate_pagerank (S fuel) [(a, links)] d = Returns (Some [(a, v)]))
    /\ v == 1.
Proof.
  intros Hg. pose proof Hg as [[Hnd _] _].
  exists (new_rank [(a, links)] d (uniform_table [(a, links)]) a). split.
  - intros fuel. now rewrite iterate_pagerank_one_pass.
  - pose proof (pass_sum [(a, links)] d (uniform_table [(a, links)])
                  ltac:(discriminate) Hg eq_refl
                  (uniform_table_sum [(a, links)] ltac:(discriminate))) as Hs.
    simpl in Hs. rewrite <- Hs. ring.
Qed.

Lemma iterate_pagerank_single_page_witness :
  is_graph g1
  /\ exists v,
       (forall fuel,
          iterate_pagerank (S fuel) g1 DAMPING = Returns (Some [("A", v)]))
       /\ v == 1.
Proof.
  assert (Hg : is_graph g1) by (apply is_graphb_sound; reflexivity).
  split; [assumption|].
  exact (iterate_pagerank_single_page "A" [] DAMPING Hg).
Defined.

(** X12.  The convergence test of a pass.  On a non-empty graph, with a
    damping factor in [[0, 1]] and old ranks that are non-negative and sum
    to one, the pass ends with [change] unset exactly when every new rank
    is within the absolute tolerance [0.001] of its old rank: the relative
    tolerance of [math.isclose] plays no part. *)
Theorem update_pass_change_flag (corpus : corpus_t) (d : Q)
  (pagerank : table) :
  corpus <> [] -> is_graph corpus -> keys pagerank = keys corpus ->
  0 <= d -> d <= 1 ->
  Forall (fun v => 0 <= v) (values pagerank) ->
  sumQ (values pagerank) == 1 ->
  exists change newrank,
    update_pass corpus d pagerank = Ok (change, newrank)
    /\ (change = false
        <-> forall k old new,
              dict_get pagerank k = Ok old -> dict_get newrank k = Ok new ->
              Qabs (new - old) <= 1 # 1000).
Proof.
  intros Hne Hg Hkeys H0 H1 Hpos Hsum. pose proof Hg as [[Hnd _] _].
  assert (Hpr : is_dict pagerank) by (unfold is_dict; now rewrite Hkeys).
  pose proof (unit_interval_of_sum _ Hpos Hsum) as Hold.
  pose proof (pass_bounds corpus d pagerank Hne Hg Hkeys H0 H1 Hpos Hsum)
    as Hnew.
  rewrite Forall_forall in Hold, Hnew.
  assert (Hclose : forall k old, In (k, old) pagerank ->
            (isclose (new_rank corpus d pagerank k) old (1 # 1000) = true
             <-> Qabs (new_rank corpus d pagerank k - old) <= 1 # 1000)).
  { intros k old Hin.
    destruct (Hold old) as [Ho0 Ho1]; [now apply (in_map snd) in Hin|].
    destruct (Hnew (new_rank corpus d pagerank k)) as [Hn0 Hn1].
    { apply in_map. now apply (in_map fst) in Hin. }
    apply isclose_unit; try assumption.
    eapply Qle_trans; [now apply (jump_term_nonneg corpus d) | exact Hn0]. }
  exists (changed (new_rank corpus d pagerank) pagerank),
    (map (fun kv => (fst kv, new_rank corpus d pagerank (fst kv))) pagerank).
  split; [now apply update_pass_eq|]. split.
  - intros Hch k old new Hgo Hgn.
    apply (dict_get_map_values_inv (fun k _ => new_rank corpus d pagerank k))
      in Hgn as [v [_ ->]].
    apply dict_get_Ok_In in Hgo. apply Hclose; [assumption|].
    unfold changed in Hch.
    destruct (isclose (new_rank corpus d pagerank k) old (1 # 1000)) eqn:E;
      [reflexivity|].
    exfalso. assert (Hex : existsb
               (fun kv => negb (isclose (new_rank corpus d pagerank (fst kv))
                                  (snd kv) (1 # 1000))) pagerank = true).
    { apply existsb_exists. exists (k, old). split; [assumption|].
      cbn [fst snd]. now rewrite E. }
    congruence.
  - intros Hall. unfold changed.
    destruct (existsb _ pagerank) eqn:E; [|reflexivity].
    apply existsb_exists in E as [[k old] [Hin Hneg]]. cbn [fst snd] in Hneg.
    assert (Hc : isclose (new_rank corpus d pagerank k) old (1 # 1000) = true).
    { apply Hclose; [assumption|]. apply (Hall k old).
      - now apply In_dict_get.
      - apply (dict_get_map_values (fun k _ => new_rank corpus d pagerank k)
                 pagerank k old). now apply In_dict_get. }
    rewrite Hc in Hneg. discriminate.
Qed.

Lemma update_pass_change_flag_witness :
  g3 <> [] /\ is_graph g3 /\ keys (uniform_table g3) = keys g3
  /\ 0 <= DAMPING /\ DAMPING <= 1
  /\ Forall (fun v => 0 <= v) (values (uniform_table g3))
  /\ sumQ (values (uniform_table g3)) == 1
  /\ exists change newrank,
       update_pass g3 DAMPING (uniform_table g3) = Ok (change, newrank)
       /\ (change = false
           <-> forall k old new,
                 dict_get (uniform_table g3) k = Ok old ->
                 dict_get newrank k = Ok new ->
                 Qabs (new - old) <= 1 # 1000).
Proof.
  assert (Hne : g3 <> []) by discriminate.
  assert (Hg : is_graph g3) by (apply is_graphb_sound; reflexivity).
  assert (Hk : keys (uniform_table g3) = keys g3) by reflexivity.
  assert (H0 : 0 <= DAMPING) by discriminate.
  assert (H1 : DAMPING <= 1) by discriminate.
  assert (Hp : Forall (fun v => 0 <= v) (values (uniform_table g3)))
    by apply uniform_table_nonneg.
  assert (Hs : sumQ (values (uniform_table g3)) == 1) by reflexivity.
  repeat (split; [assumption|]).
  exact (update_pass_change_flag g3 DAMPING (uniform_table g3)
           Hne Hg Hk H0 H1 Hp Hs).
Defined.

(** * Properties of crawl *)

(** X13.  [crawl] never fails and what it returns is a graph: the pages
    are pairwise distinct, no link set has a repeated member, and every
    link points to a page of the corpus. *)
Theorem crawl_is_graph (listing : list string) (read : string -> string)
  (findall : string -> list string) :
  exists corpus,
    crawl listing read findall = Ok corpus /\ is_graph corpus.
Proof.
  destruct (crawl_eq listing read findall)
    as [scanned [_ [Hnd [_ [_ Hcrawl]]]]].
  eexists. split; [exact Hcrawl|].
  assert (Hk : keys (map (fun kv =>
                            (fst kv, py_set (filter (dict_mem scanned) (snd kv))))
                       scanned) = keys scanned) by apply keys_map_fst.
  split; [split|].
  - unfold is_dict. now rewrite Hk.
  - apply Forall_forall. intros kv Hin.
    apply in_map_iff in Hin as [kv0 [<- _]]. cbn [snd]. apply NoDup_py_set.
  - unfold links_closed. apply Forall_forall. intros kv Hin.
    apply in_map_iff in Hin as [kv0 [<- _]]. cbn [snd].
    intros l Hl. apply (proj1 (In_py_set _ _)) in Hl.
    apply filter_In in Hl as [_ Hl].
    rewrite Hk. now apply dict_mem_In.
Qed.

(** X14.  The pages of the corpus are exactly the entries of the listing
    whose name ends with [.html]. *)
Theorem crawl_pages (listing : list string) (read : string -> string)
  (findall : string -> list string) :
  exists corpus,
    crawl listing read findall = Ok corpus
    /\ forall k, In k (keys corpus)
                 <-> In k listing /\ endswith k ".html" = true.
Proof.
  destruct (crawl_eq listing read findall)
    as [scanned [_ [_ [Hkeys [_ Hcrawl]]]]].
  eexists. split; [exact Hcrawl|].
  intros k. rewrite keys_map_fst. apply Hkeys.
Qed.

(** X15.  The links of a page of the corpus are exactly the targets found
    in its text that are another page of the corpus: no page links to
    itself and no link leaves the corpus. *)
Theorem crawl_links (listing : list string) (read : string -> string)
  (findall : string -> list string) :
  exists corpus,
    crawl listing read findall = Ok corpus
    /\ forall page links,
         dict_get corpus page = Ok links ->
         forall l, In l links
                   <-> In l (findall (read page)) /\ l <> page
                       /\ In l (keys corpus).
Proof.
  destruct (crawl_eq listing read findall)
    as [scanned [_ [_ [_ [Hraw Hcrawl]]]]].
  eexists. split; [exact Hcrawl|].
  intros page links Hget l. rewrite keys_map_fst.
  apply (dict_get_map_values_inv
           (fun _ ls => py_set (filter (dict_mem scanned) ls)))
    in Hget as [raw [Hscan ->]].
  rewrite (Hraw page raw Hscan).
  rewrite In_py_set, filter_In, In_raw_links, dict_mem_In. tauto.
Qed.



(** X17.  On a directory without any [.html] entry [crawl] returns the
    empty corpus, on which the first estimator that [main] calls raises
    [IndexError]. *)
Theorem crawl_without_pages (listing : list string) (read : string -> string)
  (findall : string -> list string) (d : Q) (n : Z) (rs : random_source) :
  (forall f, In f listing -> endswith f ".html" = false) ->
  crawl listing read findall = Ok []
  /\ (corpus <- crawl listing read findall ;; sample_pagerank corpus d n rs)
     = Err IndexError.
Proof.
  intros Hno.
  destruct (crawl_eq listing read findall)
    as [scanned [_ [_ [Hkeys [_ Hcrawl]]]]].
  assert (Hs : scanned = []).
  { destruct scanned as [|[k v] scanned]; [reflexivity|]. exfalso.
    destruct (Hkeys k) as [H _].
    destruct (H (or_introl eq_refl)) as [Hin He].
    rewrite (Hno k Hin) in He. discriminate. }
  subst scanned. simpl in Hcrawl. rewrite Hcrawl. split; reflexivity.
Qed.

Lemma crawl_without_pages_witness :
  (forall f, In f ["notes.txt"; "index.htm"] -> endswith f ".html" = false)
  /\ crawl ["notes.txt"; "index.htm"] (fun f => f) dir_links = Ok []
  /\ (corpus <- crawl ["notes.txt"; "index.htm"] (fun f => f) dir_links ;;
      sample_pagerank corpus DAMPING SAMPLES rs0)
     = Err IndexError.
Proof.
  assert (Hno : forall f, In f ["notes.txt"; "index.htm"] ->
                          endswith f ".html" = false).
  { intros f [<-|[<-|[]]]; reflexivity. }
  split; [assumption|].
  exact (crawl_without_pages ["notes.txt"; "index.htm"] (fun f => f) dir_links
           DAMPING SAMPLES rs0 Hno).
Defined.

(** * The update pass and the transition model *)

Lemma transition_prob_eq (corpus : corpus_t) (d : Q) (page next : string) :
  is_dict corpus -> In page (keys corpus) -> In next (keys corpus) ->
  transition_prob corpus d page next
  = transition_value corpus (links_of corpus page) d next.
Proof.
  intros Hnd Hpage Hnext.
  destruct (dict_get_In corpus page Hpage) as [links [Hget _]].
  unfold transition_prob, links_of. rewrite Hget.
  rewrite (transition_model_eq corpus page links d Hnd Hget).
  unfold rank_of. now rewrite dict_get_map.
Qed.

(** The part of the rank of [newpage] that the chain moves to [page]. *)
Lemma rank_times_transition (corpus : corpus_t) (d : Q) (pagerank : table)
  (page newpage : string) :
  corpus <> [] ->
  rank_of pagerank newpage
  * transition_value corpus (links_of corpus newpage) d page
  == rank_of pagerank newpage * ((1 - d) / len corpus)
     + d * share corpus pagerank page newpage.
Proof.
  intros Hne. pose proof (len_nonzero corpus Hne) as HN.
  unfold transition_value, share.
  destruct (links_of corpus newpage) as [|l links] eqn:El.
  - cbn [truthy negb set_mem existsb]. now field.
  - cbn [truthy negb].
    assert (HL : ~ len (l :: links) == 0) by (apply len_nonzero; congruence).
    destruct (set_mem page (l :: links)); now field.
Qed.

(** X18.  One update pass moves the total rank towards one: when the old
    ranks sum to [s], the new ranks sum to [(1 - d) + d * s]. *)
Theorem update_pass_total (corpus : corpus_t) (d : Q) (pagerank : table) :
  corpus <> [] -> is_graph corpus -> keys pagerank = keys corpus ->
  exists change newrank,
    update_pass corpus d pagerank = Ok (change, newrank)
    /\ sumQ (values newrank) == (1 - d) + d * sumQ (values pagerank).
Proof.
  intros Hne [Hc Hcl] Hkeys. pose proof Hc as [Hnd _].
  do 2 eexists. split; [now apply update_pass_eq|].
  rewrite pass_values, Hkeys. now apply new_rank_total.
Qed.

Lemma update_pass_total_witness :
  g3 <> [] /\ is_graph g3 /\ keys (zero_table g3) = keys g3
  /\ exists change newrank,
       update_pass g3 DAMPING (zero_table g3) = Ok (change, newrank)
       /\ sumQ (values newrank)
          == (1 - DAMPING) + DAMPING * sumQ (values (zero_table g3)).
Proof.
  assert (Hne : g3 <> []) by discriminate.
  assert (Hg : is_graph g3) by (apply is_graphb_sound; reflexivity).
  assert (Hk : keys (zero_table g3) = keys g3) by reflexivity.
  repeat (split; [assumption|]).
  exact (update_pass_total g3 DAMPING (zero_table g3) Hne Hg Hk).
Defined.

(** X19.  The update pass is one step of the chain of [transition_model]:
    when the old ranks sum to one, the new rank of a page is the sum, over
    the pages [q] of the corpus, of the old rank of [q] times the
    probability that [transition_model] gives to the move from [q] to the
    page. *)
Theorem update_pass_is_transition_step (corpus : corpus_t) (d : Q)
  (pagerank : table) :
  corpus <> [] -> is_dict corpus -> keys pagerank = keys corpus ->
  sumQ (values pagerank) == 1 ->
  exists change newrank,
    update_pass corpus d pagerank = Ok (change, newrank)
    /\ forall page new,
         dict_get newrank page = Ok new ->
         new == sumQ (map (fun q => rank_of pagerank q
                                    * transition_prob corpus d q page)
                        (keys corpus)).
Proof.
  intros Hne Hnd Hkeys Hsum.
  assert (Hpr : is_dict pagerank) by (unfold is_dict; now rewrite Hkeys).
  pose proof (len_nonzero corpus Hne) as HN.
  do 2 eexists. split; [now apply update_pass_eq|].
  intros page new Hget.
  pose proof (dict_get_Ok_keys _ _ _ Hget) as Hpage.
  rewrite keys_map_fst, Hkeys in Hpage.
  apply (dict_get_map_values_inv (fun k _ => new_rank corpus d pagerank k))
    in Hget as [old [_ ->]].
  rewrite (sumQ_map_ext _
             (fun q => rank_of pagerank q * ((1 - d) / len corpus)
                       + d * share corpus pagerank page q)).
  - rewrite sumQ_map_plus, sumQ_map_scale.
    rewrite (sumQ_map_ext
               (fun q => rank_of pagerank q * ((1 - d) / len corpus))
               (fun q => (1 - d) / len corpus * rank_of pagerank q))
      by (intros; ring).
    rewrite sumQ_map_scale.
    rewrite <- Hkeys at 1. rewrite (rank_of_keys pagerank Hpr), Hsum.
    unfold new_rank. rewrite fold_left_add_share. ring.
  - intros q Hq. rewrite transition_prob_eq by assumption.
    now apply rank_times_transition.
Qed.

Lemma update_pass_is_transition_step_witness :
  g3 <> [] /\ is_dict g3 /\ keys (uniform_table g3) = keys g3
  /\ sumQ (values (uniform_table g3)) == 1
  /\ exists change newrank,
       update_pass g3 DAMPING (uniform_table g3) = Ok (change, newrank)
       /\ forall page new,
            dict_get newrank page = Ok new ->
            new == sumQ (map (fun q => rank_of (uniform_table g3) q
                                       * transition_prob g3 DAMPING q page)
                           (keys g3)).
Proof.
  assert (Hne : g3 <> []) by discriminate.
  assert (Hnd : is_dict g3) by (apply nodupb_sound; reflexivity).
  assert (Hk : keys (uniform_table g3) = keys g3) by reflexivity.
  assert (Hs : sumQ (values (uniform_table g3)) == 1) by reflexivity.
  repeat (split; [assumption|]).
  exact (update_pass_is_transition_step g3 DAMPING (uniform_table g3)
           Hne Hnd Hk Hs).
Defined.
